(** * VaMPy, [Artery.py]: the dual-pressure outlet controller

    A shallow embedding of the pressure feedback loop that
    [temporal_hook] runs on the outlets of an artery model, together
    with the helper [beta].

    Numbers.  Python floats are IEEE doubles.  The file holds two
    embeddings of the controller.  The first computes with the real
    numbers of the Standard Library: arithmetic is exact, there is no
    rounding, no overflow and no NaN; it carries the statements on the
    control flow of the hook and on the algebra of the formulas.  The
    second, module [Binary64], computes with binary64 numbers and
    follows CPython's [float_pow] for [**]; it carries the statements
    that depend on rounding, on overflow and underflow, and on what
    [**] raises.  Python integers ([tstep], boundary ids) are [Z].
    What Python reports with an exception is an explicit [Raise]
    carrying the name of the exception class. *)

From Stdlib Require Import Reals Lra Lia ZArith Ascii.
From stdpp Require Import gmap strings list pretty.
From Stdlib Require Import Floats.

Local Open Scope string_scope.
Local Open Scope R_scope.

(** ** Results of Python computations *)

Inductive result (A : Type) : Type :=
| Ok (a : A)
| Raise (exc : string).
Arguments Ok {A} a.
Arguments Raise {A} exc.

#[export] Instance result_ret : MRet result := fun A a => Ok a.
#[export] Instance result_bind : MBind result := fun A B f m =>
  match m with
  | Ok a => f a
  | Raise exc => Raise exc
  end.

(** Comparisons of floats are decided, so that they can stand in the
    conditions of [if]. *)
#[export] Instance Rlt_decision (x y : R) : Decision (x < y) := Rlt_dec x y.
#[export] Instance Rgt_decision (x y : R) : Decision (x > y) := Rgt_dec x y.
#[export] Instance Rge_decision (x y : R) : Decision (x >= y) := Rge_dec x y.
#[export] Instance Req_decision : EqDecision R := Req_dec_T.

Definition ZeroDivisionError : string := "ZeroDivisionError".
Definition UnboundLocalError : string := "UnboundLocalError".
Definition KeyError : string := "KeyError".
Definition IndexError : string := "IndexError".
Definition ValueError : string := "ValueError".

(** [x / y] on floats. *)
Definition float_div (x y : R) : result R :=
  if decide (y = 0) then Raise ZeroDivisionError else Ok (x / y).

(** [x ** y] on floats.  A positive base is the only case the
    controller reaches (its base is an absolute value, and a zero base
    is excluded by the divisions before it); the other cases follow
    CPython's [float_pow]: anything to the power zero is one, zero to a
    negative power is a [ZeroDivisionError], and a negative base is
    real only for an integral exponent. *)
Definition float_pow (x y : R) : result R :=
  if decide (0 < x) then Ok (Rpower x y)
  else if decide (y = 0) then Ok 1
  else if decide (x = 0) then
    if decide (y < 0) then Raise ZeroDivisionError else Ok 0
  else if decide (IZR (Int_part y) = y) then Ok (powerRZ x (Int_part y))
  else Raise ValueError.

(** [l[i]] on a list, for an index that is not negative. *)
Definition getitem {A : Type} (l : list A) (i : nat) : result A :=
  match l !! i with
  | Some a => Ok a
  | None => Raise IndexError
  end.

(** ** [beta] (Artery.py, lines 175-185) *)

Definition beta (err p : R) : R :=
  if decide (p < 0) then
    if decide (err >= 0.1) then 0.5
    else 1 - 5 * err ^ 2
  else
    if decide (err >= 0.1) then 1.5
    else 1 + 5 * err ^ 2.

(** ** The per-outlet quantities (lines 218-227)

    The values that one pass of the loop over [id_out] leaves in
    [R_optimal], [R_actual], [M_err], [R_err] and [E]. *)

Record flow_split : Type := mk_flow_split {
  R_optimal : R;
  R_actual : R;
  M_err : R;
  R_err : R;
  E : R
}.

Definition measure_split (area_ratio_i p_old Q_in Q_out : R) : result flow_split :=
  let R_optimal := area_ratio_i in
  R_actual ← float_div Q_out Q_in;
  q ← float_div R_optimal R_actual;
  let M_err := Rabs q in
  let R_err := Rabs (R_optimal - R_actual) in
  E ← (if decide (p_old < 0) then
         r ← float_div R_err R_optimal; mret (1 + r)
       else
         r ← float_div R_err R_optimal; mret (-1 * (1 + r)));
  mret (mk_flow_split R_optimal R_actual M_err R_err E).

(** ** The pressure law (lines 230-244)

    The value assigned to [NS_expressions[out_id].p], from the
    quantities above and the old pressure. *)

Definition pressure_law (tstep : Z) (p_old : R) (fs : flow_split) : result R :=
  delta ← float_div (R_optimal fs - R_actual fs) (R_optimal fs);
  if (tstep <? 100)%Z then
    let h := 0.1 in
    if bool_decide (p_old > 1) && bool_decide (delta < 0) then mret p_old
    else mret (p_old * (1 - delta * h))
  else
    if bool_decide (p_old > 2) && bool_decide (delta < 0) then mret p_old
    else
      pw ← float_pow (M_err fs) (E fs);
      mret (p_old * beta (R_err fs) p_old * pw).

(** One controller step for one outlet: the quantities of the loop
    body followed by the pressure law. *)
Definition update (area_ratio pressure_old q_in q_out : R) (timestep : Z) : result R :=
  fs ← measure_split area_ratio pressure_old q_in q_out;
  pressure_law timestep pressure_old fs.

(** ** The solver state seen by [temporal_hook]

    [NS_expressions] maps ["inlet"] to the components of the inlet
    profile, each with its current time, and every outlet id to the
    expression whose attribute [p] is the pressure of that outlet. *)

Record expressions : Type := mk_expressions {
  inlet : list R;
  outlet_p : gmap Z R
}.

(** What the solver supplies: the flux of the current velocity through
    a boundary, [assemble(dot(u_, n)*ds(id, ...))], and the MPI rank of
    the process. *)
Record solver : Type := mk_solver {
  assemble_flux : Z → R;
  mpi_rank : Z
}.

(** The names bound by the body of the loop over [id_out]. *)
Record locals : Type := mk_locals {
  i : nat;
  out_id : Z;
  Q_out : R;
  Q_ideal : R;
  p_old : R;
  quantities : flow_split
}.

(** [NS_expressions[out_id].p] *)
Definition get_p (NS_expressions : expressions) (out_id : Z) : result R :=
  match outlet_p NS_expressions !! out_id with
  | Some p => Ok p
  | None => Raise KeyError
  end.

(** [NS_expressions[out_id].p = v], for an outlet that is present. *)
Definition set_p (NS_expressions : expressions) (out_id : Z) (v : R) : expressions :=
  mk_expressions (inlet NS_expressions) (<[out_id := v]> (outlet_p NS_expressions)).

(** [for uc in NS_expressions["inlet"]: uc.set_t(t)] *)
Definition set_t (NS_expressions : expressions) (t : R) : expressions :=
  mk_expressions ((λ _, t) <$> inlet NS_expressions) (outlet_p NS_expressions).

(** One pass of the loop body, lines 209-227. *)
Definition loop_body (sv : solver) (NS_expressions : expressions) (area_ratio : list R)
    (Q_in : R) (i : nat) (out_id : Z) : result locals :=
  let Q_out := Rabs (assemble_flux sv out_id) in
  a ← getitem area_ratio i;
  let Q_ideal := a * Q_in in
  p_old ← get_p NS_expressions out_id;
  fs ← measure_split a p_old Q_in Q_out;
  mret (mk_locals i out_id Q_out Q_ideal p_old fs).

(** [for i, out_id in enumerate(id_out)], from index [i] on.  [Q_outs]
    collects the outlet fluxes; [last] holds the names bound by the most
    recent pass, if there was one. *)
Fixpoint outlet_loop (sv : solver) (NS_expressions : expressions) (area_ratio : list R)
    (Q_in : R) (i : nat) (id_out : list Z) (Q_outs : list R) (last : option locals)
    : result (list R * option locals) :=
  match id_out with
  | [] => Ok (Q_outs, last)
  | out_id :: rest =>
      l ← loop_body sv NS_expressions area_ratio Q_in i out_id;
      outlet_loop sv NS_expressions area_ratio Q_in (S i) rest (Q_outs ++ [Q_out l]) (Some l)
  end.

(** The guard of line 201. *)
Definition sampled (tstep : Z) : bool :=
  bool_decide (tstep > 2)%Z && bool_decide (tstep `mod` 1 = 0)%Z.

(** Lines 203-244: measure the fluxes, run the loop, and compute the
    assignment to [NS_expressions[out_id].p] that follows it.  The
    pressure law stands after the loop, so it reads the names the last
    pass left behind; with no outlet they are unbound locals. *)
Definition flux_and_pressure (sv : solver) (tstep : Z) (id_in id_out : list Z)
    (area_ratio : list R) (NS_expressions : expressions) : result (Z * R) :=
  in0 ← getitem id_in 0;
  let Q_in := Rabs (assemble_flux sv in0) in
  '(Q_outs, last) ← outlet_loop sv NS_expressions area_ratio Q_in 0 id_out [] None;
  match last with
  | None => Raise UnboundLocalError
  | Some l =>
      v ← pressure_law tstep (p_old l) (quantities l);
      mret (out_id l, v)
  end.

(** [temporal_hook], lines 196-253: the expressions it leaves behind and
    whether it raised.  An exception does not undo the assignments made
    before it.  The summary printed on rank 0 every tenth step reads
    names that only the sampled branch binds.  The probes and the files
    written after line 253 are outside this model. *)
Definition temporal_hook (sv : solver) (tstep : Z) (t : R) (id_in id_out : list Z)
    (area_ratio : list R) (NS_expressions : expressions) : expressions * result unit :=
  let NS1 := set_t NS_expressions t in
  if sampled tstep then
    match flux_and_pressure sv tstep id_in id_out area_ratio NS1 with
    | Raise exc => (NS1, Raise exc)
    | Ok (out_id, v) => (set_p NS1 out_id v, Ok ())
    end
  else if bool_decide (mpi_rank sv = 0)%Z && bool_decide (tstep `mod` 10 = 0)%Z
  then (NS1, Raise UnboundLocalError)
  else (NS1, Ok ()).

(** ** The controller in the words of the specification

    Section 4.1 of the specification describes [update] as a state
    machine on the clock with one law per state.  These definitions
    follow its text; the theorems below compare them with the code. *)

Inductive phase : Type := EARLY_TRANSIENT | STEADY_STATE.

Definition cycle_phase (timestep : Z) : phase :=
  if bool_decide (timestep < 100)%Z then EARLY_TRANSIENT else STEADY_STATE.

Definition spec_delta (R_optimal R_actual : R) : R :=
  (R_optimal - R_actual) / R_optimal.

Definition spec_E (pressure_old R_err R_optimal : R) : R :=
  if decide (pressure_old < 0) then 1 + R_err / R_optimal
  else - (1 + R_err / R_optimal).

Definition linear_relaxation (pressure_old delta : R) : R :=
  if decide (pressure_old > 1 ∧ delta < 0) then pressure_old
  else pressure_old * (1 - delta * 0.1).

Definition dual_pressure (pressure_old delta R_err M_err E : R) : R :=
  if decide (pressure_old > 2 ∧ delta < 0) then pressure_old
  else pressure_old * beta R_err pressure_old * Rpower M_err E.

Definition spec_update (area_ratio pressure_old q_in q_out : R) (timestep : Z) : R :=
  let R_optimal := area_ratio in
  let R_actual := q_out / q_in in
  let R_err := Rabs (R_optimal - R_actual) in
  let M_err := Rabs (R_optimal / R_actual) in
  let delta := spec_delta R_optimal R_actual in
  let E := spec_E pressure_old R_err R_optimal in
  match cycle_phase timestep with
  | EARLY_TRANSIENT => linear_relaxation pressure_old delta
  | STEADY_STATE => dual_pressure pressure_old delta R_err M_err E
  end.

(** ** Outlets on which the loop body raises nothing

    From index [n] on, every outlet of [ids] is registered in
    [NS_expressions] and has a nonzero area ratio and a nonzero flux. *)

Definition healthy (sv : solver) (area_ratio : list R) (NS_expressions : expressions)
    (n : nat) (ids : list Z) : Prop :=
  ∀ (k : nat) (o : Z), ids !! k = Some o →
    ∃ a p : R,
      area_ratio !! (n + k)%nat = Some a
      ∧ outlet_p NS_expressions !! o = Some p
      ∧ a ≠ 0 ∧ assemble_flux sv o ≠ 0.

(** ** A run with two outlets

    Inlet 0 carries a flux of 1, outlets 1 and 2 carry 0.4 and 0.6;
    both outlets have area ratio 0.5 and start at pressure 1. *)

Definition example_solver : solver :=
  mk_solver (λ id, if (id =? 0)%Z then 1 else if (id =? 1)%Z then 0.4 else 0.6) 0.

Definition example_expressions : expressions :=
  mk_expressions [] (<[1%Z := 1]> (<[2%Z := 1]> ∅)).

(** ** The pressure conditions of [create_bcs] (lines 85-99)

    [assemble_area] gives the area of a boundary,
    [assemble(Constant(1.0)*ds(ind, ...))].  Every outlet starts at its
    share of the total outlet area; the expression holding it is
    registered in [NS_expressions] under the outlet id, and [bc_p]
    lists the boundaries with their initial pressures. *)

(** [sum(l)] on floats. *)
Definition py_sum (l : list R) : R := fold_left Rplus l 0.

(** [NS_expressions[ID] = outflow], for an expression of pressure [p]. *)
Definition register_outflow (NS_expressions : expressions) (ID : Z) (p : R) : expressions :=
  mk_expressions (inlet NS_expressions) (<[ID := p]> (outlet_p NS_expressions)).

Fixpoint pressure_bc_loop (area_out : list R) (i : nat) (id_out : list Z)
    (NS_expressions : expressions) (bc_p : list (Z * R))
    : expressions * result (list (Z * R)) :=
  match id_out with
  | [] => (NS_expressions, Ok bc_p)
  | ID :: rest =>
      match (a ← getitem area_out i; float_div a (py_sum area_out)) with
      | Raise exc => (NS_expressions, Raise exc)
      | Ok p_initial =>
          pressure_bc_loop area_out (S i) rest
            (register_outflow NS_expressions ID p_initial) (bc_p ++ [(ID, p_initial)])
      end
  end.

Definition create_pressure_bcs (assemble_area : Z → R) (id_out : list Z)
    (NS_expressions : expressions) : expressions * result (list (Z * R)) :=
  let area_out := assemble_area <$> id_out in
  pressure_bc_loop area_out 0 id_out NS_expressions [].

(** ** Paths

    [os.path.join] on a POSIX system, one component at a time: an
    absolute component replaces what came before, and a separator is
    added unless the path so far is empty or ends with one. *)

(** [s.startswith("/")] *)
Definition startswith_sep (s : string) : bool :=
  match s with
  | String c _ => bool_decide (c = "/"%char)
  | EmptyString => false
  end.

(** [s.endswith("/")] *)
Fixpoint endswith_sep (s : string) : bool :=
  match s with
  | EmptyString => false
  | String c EmptyString => bool_decide (c = "/"%char)
  | String _ rest => endswith_sep rest
  end.

Definition path_join (path b : string) : string :=
  if startswith_sep b then b
  else if bool_decide (path = "") || endswith_sep path then path +:+ b
  else path +:+ "/" +:+ b.

(** ** The case name (lines 40-41, 58-59, 149-150)

    [mesh_path.split(".")[0]]: the mesh path up to its first dot. *)

Fixpoint case_name (mesh_path : string) : string :=
  match mesh_path with
  | EmptyString => EmptyString
  | String c rest => if bool_decide (c = "."%char) then EmptyString
                     else String c (case_name rest)
  end.

(** Lines 40-41: the value of [NS_parameters["folder"]] for a run that
    is not restarted, [path.join("results_aneurysm", caseName)]. *)
Definition results_folder (mesh_path : string) : string :=
  path_join "results_aneurysm" (case_name mesh_path).

(** Lines 58-59: the file of flow split ratios that [create_bcs] reads;
    [here] is the directory of the problem file. *)
Definition info_path (here mesh_path : string) : string :=
  path_join (path_join here (case_name mesh_path)) (case_name mesh_path +:+ ".txt").

(** Lines 149-150: the file of probe points that [pre_solve_hook] loads. *)
Definition probe_points_path (here mesh_path : string) : string :=
  path_join (path_join here (case_name mesh_path))
    (case_name mesh_path +:+ "_probe_point").

(** ** [get_file_paths] (lines 114-137)

    What the function asks of its surroundings.  [percent_format fmt s]
    is Python's [fmt % s] for a string [s]; it raises for a format that
    does not hold exactly one conversion, one that takes a string.
    [isdir] is the answer of the file system to [path.isdir]. *)







Inductive file_entry : Type :=
| OneFile (f : string)
| FileList (fs : list string).

(** Lines 130-137. *)
Definition file_paths (folder : string) (counter : nat) : gmap string file_entry :=
  let common_path :=
    path_join (path_join (path_join folder "data") (pretty counter)) "VTK" in
  let file_u :=
    (λ i : nat, path_join common_path ("u" +:+ pretty i +:+ ".h5")) <$> seq 0 3 in
  let file_p := path_join common_path "p.h5" in
  let file_nu := path_join common_path "nut.h5" in
  let file_u_mean :=
    (λ i : nat, path_join common_path ("u" +:+ pretty i +:+ "_mean.h5")) <$> seq 0 3 in
  <["u" := FileList file_u]>
    (<["p" := OneFile file_p]>
       (<["u_mean" := FileList file_u_mean]> (<["nut" := OneFile file_nu]> ∅))).


(** ** Vocabulary for the statements on paths *)

(** The separator that [path_join] puts after a path. *)
Definition sep_after (path : string) : string :=
  if bool_decide (path = "") || endswith_sep path then "" else "/".

(** [c in s] for a character. *)
Fixpoint contains_char (c : ascii) (s : string) : bool :=
  match s with
  | EmptyString => false
  | String c' rest => bool_decide (c' = c) || contains_char c rest
  end.

(** The directory of the files of run [counter], line 130. *)
Definition common_path (folder : string) (counter : nat) : string :=
  path_join (path_join (path_join folder "data") (pretty counter)) "VTK".

(** [f] is one of the paths held by [files]. *)
Definition holds_path (files : gmap string file_entry) (f : string) : Prop :=
  ∃ key : string,
    files !! key = Some (OneFile f)
    ∨ ∃ fs : list string, files !! key = Some (FileList fs) ∧ f ∈ fs.





(** * The controller on IEEE doubles

    The definitions above compute with exact reals.  Where a statement
    depends on rounding, on overflow or underflow, or on what [**]
    does with them, it is made on the definitions of this module, which
    follow the same lines of the source on binary64 numbers (Rocq's
    primitive floats).  The C library enters through [pow], [floor] and
    [fmod], which CPython calls for [**]; they are a parameter. *)

Module Binary64.
#[local] Set Warnings "-inexact-float".
Local Open Scope float_scope.

(** What a call of the C library reports in [errno]: nothing, a range
    error, or something else. *)
Inductive errno : Type := ENONE | ERANGE | EOTHER.

Record libm : Type := mk_libm {
  pow : float → float → float * errno;
  floor : float → float;
  fmod : float → float → float
}.

Definition OverflowError : string := "OverflowError".

Definition is_nan (x : float) : bool := negb (x =? x).
Definition is_infinity (x : float) : bool := abs x =? infinity.

(** [x / y] on floats: [float_div] of CPython. *)
Definition float_div (x y : float) : result float :=
  if y =? 0 then Raise ZeroDivisionError else Ok (x / y).

(** [DOUBLE_IS_ODD_INTEGER(x)]: [fmod(fabs(x), 2.0) == 1.0]. *)
Definition is_odd_integer (m : libm) (x : float) : bool :=
  fmod m (abs x) 2 =? 1.

(** [Py_ADJUST_ERANGE1]: an infinite result counts as a range error, a
    range error with a zero result (underflow) is forgiven. *)
Definition adjust_erange (ix : float) (e : errno) : errno :=
  match e with
  | ENONE => if (ix =? infinity) || (ix =? neg_infinity) then ERANGE else ENONE
  | ERANGE => if ix =? 0 then ENONE else ERANGE
  | EOTHER => EOTHER
  end.

(** [iv ** iw] on floats: [float_pow] of CPython 2.7.  The special
    cases come first; a finite base that is positive and not 1 with a
    finite nonzero exponent goes to the C library, and its overflow is
    an [OverflowError]. *)
Definition float_pow (m : libm) (iv iw : float) : result float :=
  if iw =? 0 then Ok 1
  else if is_nan iv then Ok iv
  else if is_nan iw then Ok (if iv =? 1 then 1 else iw)
  else if is_infinity iw then
    let iv := abs iv in
    if iv =? 1 then Ok 1
    else if Bool.eqb (0 <? iw) (1 <? iv) then Ok (abs iw)
    else Ok 0
  else if is_infinity iv then
    let iw_is_odd := is_odd_integer m iw in
    if 0 <? iw then Ok (if iw_is_odd then iv else abs iv)
    else Ok (if iw_is_odd then (if iv <? 0 then -0 else 0) else 0)
  else if iv =? 0 then
    let iw_is_odd := is_odd_integer m iw in
    if iw <? 0 then Raise ZeroDivisionError
    else Ok (if iw_is_odd then iv else 0)
  else if (iv <? 0) && negb (iw =? floor m iw) then Raise ValueError
  else
    let negate_result := (iv <? 0) && is_odd_integer m iw in
    let iv := if iv <? 0 then - iv else iv in
    if iv =? 1 then Ok (if negate_result then -1 else 1)
    else
      let '(ix, e) := pow m iv iw in
      let e := adjust_erange ix e in
      let ix := if negate_result then - ix else ix in
      match e with
      | ENONE => Ok ix
      | ERANGE => Raise OverflowError
      | EOTHER => Raise ValueError
      end.

(** [beta] (lines 175-185); [err**2] is [float_pow] at the exponent 2.0. *)
Definition beta (m : libm) (err p : float) : result float :=
  if p <? 0 then
    if 0.1 <=? err then Ok 0.5
    else sq ← float_pow m err 2; Ok (1 - 5 * sq)
  else
    if 0.1 <=? err then Ok 1.5
    else sq ← float_pow m err 2; Ok (1 + 5 * sq).

Record flow_split : Type := mk_flow_split {
  R_optimal : float;
  R_actual : float;
  M_err : float;
  R_err : float;
  E : float
}.

(** Lines 218-227. *)
Definition measure_split (area_ratio_i p_old Q_in Q_out : float) : result flow_split :=
  let R_optimal := area_ratio_i in
  R_actual ← float_div Q_out Q_in;
  q ← float_div R_optimal R_actual;
  let M_err := abs q in
  let R_err := abs (R_optimal - R_actual) in
  E ← (if p_old <? 0 then
         r ← float_div R_err R_optimal; mret (1 + r)
       else
         r ← float_div R_err R_optimal; mret (-1 * (1 + r)));
  mret (mk_flow_split R_optimal R_actual M_err R_err E).

(** Lines 230-244. *)
Definition pressure_law (m : libm) (tstep : Z) (p_old : float) (fs : flow_split)
    : result float :=
  delta ← float_div (R_optimal fs - R_actual fs) (R_optimal fs);
  if (tstep <? 100)%Z then
    let h := 0.1 in
    if (1 <? p_old) && (delta <? 0) then mret p_old
    else mret (p_old * (1 - delta * h))
  else
    if (2 <? p_old) && (delta <? 0) then mret p_old
    else
      b ← beta m (R_err fs) p_old;
      pw ← float_pow m (M_err fs) (E fs);
      mret (p_old * b * pw).

Definition update (m : libm) (area_ratio pressure_old q_in q_out : float) (timestep : Z)
    : result float :=
  fs ← measure_split area_ratio pressure_old q_in q_out;
  pressure_law m timestep pressure_old fs.

(** The solver state, as above, on doubles. *)
Record expressions : Type := mk_expressions {
  inlet : list float;
  outlet_p : gmap Z float
}.

Record solver : Type := mk_solver {
  assemble_flux : Z → float;
  mpi_rank : Z
}.

Record locals : Type := mk_locals {
  i : nat;
  out_id : Z;
  Q_out : float;
  Q_ideal : float;
  p_old : float;
  quantities : flow_split
}.

Definition get_p (NS_expressions : expressions) (out_id : Z) : result float :=
  match outlet_p NS_expressions !! out_id with
  | Some p => Ok p
  | None => Raise KeyError
  end.

Definition set_p (NS_expressions : expressions) (out_id : Z) (v : float) : expressions :=
  mk_expressions (inlet NS_expressions) (<[out_id := v]> (outlet_p NS_expressions)).

Definition set_t (NS_expressions : expressions) (t : float) : expressions :=
  mk_expressions ((λ _, t) <$> inlet NS_expressions) (outlet_p NS_expressions).

(** Lines 209-227. *)
Definition loop_body (sv : solver) (NS_expressions : expressions) (area_ratio : list float)
    (Q_in : float) (i : nat) (out_id : Z) : result locals :=
  let Q_out := abs (assemble_flux sv out_id) in
  a ← getitem area_ratio i;
  let Q_ideal := a * Q_in in
  p_old ← get_p NS_expressions out_id;
  fs ← measure_split a p_old Q_in Q_out;
  mret (mk_locals i out_id Q_out Q_ideal p_old fs).

Fixpoint outlet_loop (sv : solver) (NS_expressions : expressions)
    (area_ratio : list float) (Q_in : float) (i : nat) (id_out : list Z)
    (Q_outs : list float) (last : option locals)
    : result (list float * option locals) :=
  match id_out with
  | [] => Ok (Q_outs, last)
  | out_id :: rest =>
      l ← loop_body sv NS_expressions area_ratio Q_in i out_id;
      outlet_loop sv NS_expressions area_ratio Q_in (S i) rest
        (Q_outs ++ [Q_out l])%list (Some l)
  end.

(** Lines 203-244. *)
Definition flux_and_pressure (m : libm) (sv : solver) (tstep : Z) (id_in id_out : list Z)
    (area_ratio : list float) (NS_expressions : expressions) : result (Z * float) :=
  in0 ← getitem id_in 0;
  let Q_in := abs (assemble_flux sv in0) in
  '(Q_outs, last) ← outlet_loop sv NS_expressions area_ratio Q_in 0 id_out [] None;
  match last with
  | None => Raise UnboundLocalError
  | Some l =>
      v ← pressure_law m tstep (p_old l) (quantities l);
      mret (out_id l, v)
  end.

(** Lines 196-253. *)
Definition temporal_hook (m : libm) (sv : solver) (tstep : Z) (t : float)
    (id_in id_out : list Z) (area_ratio : list float) (NS_expressions : expressions)
    : expressions * result unit :=
  let NS1 := set_t NS_expressions t in
  if sampled tstep then
    match flux_and_pressure m sv tstep id_in id_out area_ratio NS1 with
    | Raise exc => (NS1, Raise exc)
    | Ok (out_id, v) => (set_p NS1 out_id v, Ok ())
    end
  else if bool_decide (mpi_rank sv = 0)%Z && bool_decide (tstep `mod` 10 = 0)%Z
  then (NS1, Raise UnboundLocalError)
  else (NS1, Ok ()).

(** The laws of section 4.1 of the specification, on doubles. *)
Definition linear_relaxation (pressure_old delta : float) : float :=
  if (1 <? pressure_old) && (delta <? 0) then pressure_old
  else pressure_old * (1 - delta * 0.1).

Definition dual_pressure (m : libm) (pressure_old delta R_err M_err E : float)
    : result float :=
  if (2 <? pressure_old) && (delta <? 0) then Ok pressure_old
  else
    b ← beta m R_err pressure_old;
    pw ← float_pow m M_err E;
    Ok (pressure_old * b * pw).

(** An outlet the loop body can measure: it has an area ratio, it is
    registered, and none of the three divisions is by zero. *)
Definition measurable (sv : solver) (area_ratio : list float)
    (NS_expressions : expressions) (Q_in : float) (n : nat) (o : Z) : Prop :=
  ∃ a p : float,
    area_ratio !! n = Some a
    ∧ outlet_p NS_expressions !! o = Some p
    ∧ (Q_in =? 0) = false
    ∧ (abs (assemble_flux sv o) / Q_in =? 0) = false
    ∧ (a =? 0) = false.

(** A C library for the examples: the values glibc's [pow] returns at
    the points the examples use; at any other point this table reports
    an error.  [floor] and [fmod] are consulted by [**] for a negative,
    zero or infinite base only; no example has one, and the table
    leaves them without content. *)
Definition libm_samples : libm :=
  mk_libm
    (λ x y,
       if (x =? 0x1.9999999999998p-4) && (y =? 2)
       then (0x1.47ae147ae1478p-7, ENONE)
       else if (x =? 0x1.7ffffffffffffp+0) && (y =? -0x1.5555555555555p+0)
       then (0x1.2a2ea0334a07cp-1, ENONE)
       else if (x =? 0x1.b4e81b4e81b4fp-8) && (y =? -150)
       then (infinity, ERANGE)
       else if (x =? 0x1.6c16c16c16c17p-8) && (y =? 180)
       then (0, ERANGE)
       else (nan, EOTHER))
    (λ x, x)
    (λ _ _, nan).

(** Two outlets as in the run above, on doubles. *)
Definition example_solver : solver :=
  mk_solver (λ id, if (id =? 0)%Z then 1 else if (id =? 1)%Z then 0.4 else 0.6) 0.

Definition example_expressions : expressions :=
  mk_expressions [] (<[1%Z := 1]> (<[2%Z := 1]> ∅)).

End Binary64.

(** * Properties *)

(** Case analysis on every decided comparison of the goal; what is
    left is linear arithmetic. *)
Ltac by_comparisons := repeat case_decide; try reflexivity; try lra.

(** ** Division and power *)

Lemma float_div_ok (x y : R) : y ≠ 0 → float_div x y = Ok (x / y).
Proof. intros Hy. unfold float_div. case_decide; [contradiction | reflexivity]. Qed.

Lemma float_div_zero (x : R) : float_div x 0 = Raise ZeroDivisionError.
Proof. unfold float_div. case_decide; [reflexivity | contradiction]. Qed.

Lemma float_div_cases (x y : R) :
  (y = 0 ∧ float_div x y = Raise ZeroDivisionError) ∨ (y ≠ 0 ∧ float_div x y = Ok (x / y)).
Proof.
  destruct (decide (y = 0)) as [-> | Hy].
  - left. split; [reflexivity | apply float_div_zero].
  - right. split; [assumption | now apply float_div_ok].
Qed.

Lemma float_pow_pos (x y : R) : 0 < x → float_pow x y = Ok (Rpower x y).
Proof. intros Hx. unfold float_pow. case_decide; [reflexivity | contradiction]. Qed.

Lemma Rdiv_neq_0 (x y : R) : x ≠ 0 → y ≠ 0 → x / y ≠ 0.
Proof.
  intros Hx Hy. unfold Rdiv.
  apply Rmult_integral_contrapositive_currified; [assumption | now apply Rinv_neq_0_compat].
Qed.

(** ** The quantities of one outlet *)

Lemma measure_split_ok (a p Q_in Q_out : R) :
  a ≠ 0 → Q_in ≠ 0 → Q_out ≠ 0 →
  measure_split a p Q_in Q_out =
    Ok (mk_flow_split a (Q_out / Q_in) (Rabs (a / (Q_out / Q_in)))
          (Rabs (a - Q_out / Q_in))
          (spec_E p (Rabs (a - Q_out / Q_in)) a)).
Proof.
  intros Ha Hin Hout. unfold measure_split, spec_E.
  pose proof (Rdiv_neq_0 _ _ Hout Hin) as Hr.
  rewrite (float_div_ok Q_out Q_in Hin). cbn.
  rewrite (float_div_ok a _ Hr). cbn.
  rewrite (float_div_ok _ a Ha).
  case_decide; cbn; do 2 f_equal; lra.
Qed.

Lemma measure_split_zero (a p Q_in Q_out : R) :
  a = 0 ∨ Q_in = 0 ∨ Q_out = 0 →
  measure_split a p Q_in Q_out = Raise ZeroDivisionError.
Proof.
  intros Hz. unfold measure_split.
  destruct (float_div_cases Q_out Q_in) as [[_ ->] | [Hin ->]]; [reflexivity |]. cbn.
  destruct (float_div_cases a (Q_out / Q_in)) as [[_ ->] | [Hr ->]]; [reflexivity |]. cbn.
  assert (Ha : a = 0).
  { destruct Hz as [Ha | [Hi | Ho]]; [assumption | contradiction |].
    exfalso. apply Hr. subst Q_out. unfold Rdiv. apply Rmult_0_l. }
  subst a. rewrite float_div_zero. case_decide; reflexivity.
Qed.

(** ** The pressure law *)

Lemma pressure_law_ok (tstep : Z) (p : R) (fs : flow_split) :
  R_optimal fs ≠ 0 → 0 < M_err fs →
  pressure_law tstep p fs =
    Ok (match cycle_phase tstep with
        | EARLY_TRANSIENT =>
            linear_relaxation p (spec_delta (R_optimal fs) (R_actual fs))
        | STEADY_STATE =>
            dual_pressure p (spec_delta (R_optimal fs) (R_actual fs))
              (R_err fs) (M_err fs) (E fs)
        end).
Proof.
  intros Ho Hm. unfold pressure_law, cycle_phase, linear_relaxation, dual_pressure.
  rewrite (float_div_ok _ _ Ho). cbn. fold (spec_delta (R_optimal fs) (R_actual fs)).
  destruct (Z.ltb_spec tstep 100).
  - rewrite (bool_decide_eq_true_2 (tstep < 100)%Z) by assumption.
    repeat case_bool_decide; case_decide; cbn; try reflexivity; tauto.
  - rewrite (bool_decide_eq_false_2 (tstep < 100)%Z) by lia.
    repeat case_bool_decide; case_decide; cbn; rewrite ?(float_pow_pos _ _ Hm);
      try reflexivity; tauto.
Qed.

(** On inputs without a zero, [update] computes what the specification
    describes. *)
Lemma update_refines (a p Q_in Q_out : R) (tstep : Z) :
  a ≠ 0 → Q_in ≠ 0 → Q_out ≠ 0 →
  update a p Q_in Q_out tstep = Ok (spec_update a p Q_in Q_out tstep).
Proof.
  intros Ha Hin Hout. unfold update.
  rewrite (measure_split_ok a p Q_in Q_out Ha Hin Hout). cbn.
  rewrite pressure_law_ok; cbn; [reflexivity | assumption |].
  apply Rabs_pos_lt. apply Rdiv_neq_0; [assumption | now apply Rdiv_neq_0].
Qed.

(** With a zero among area ratio, inflow and outflow, a division fails
    before any pressure is computed, whatever the timestep. *)
Lemma update_zero (a p Q_in Q_out : R) (tstep : Z) :
  a = 0 ∨ Q_in = 0 ∨ Q_out = 0 →
  update a p Q_in Q_out tstep = Raise ZeroDivisionError.
Proof. intros Hz. unfold update. now rewrite measure_split_zero. Qed.

(** ** Claims on [update] *)

Lemma cycle_phase_early (t : Z) : (t < 100)%Z → cycle_phase t = EARLY_TRANSIENT.
Proof. intros Ht. unfold cycle_phase. now rewrite bool_decide_eq_true_2. Qed.

Lemma cycle_phase_steady (t : Z) : (100 ≤ t)%Z → cycle_phase t = STEADY_STATE.
Proof. intros Ht. unfold cycle_phase. rewrite bool_decide_eq_false_2; [reflexivity | lia]. Qed.

Lemma cycle_phase_steady_iff (t : Z) : cycle_phase t = STEADY_STATE ↔ (100 ≤ t)%Z.
Proof.
  split; [| apply cycle_phase_steady].
  unfold cycle_phase. case_bool_decide; [discriminate | lia].
Qed.

(** C4 (amended): a zero inflow and a zero area ratio both make the
    update fail with Python's [ZeroDivisionError]; no pressure is
    returned in either case. *)
Theorem update_zero_division :
  (∀ (a p Q_out : R) (tstep : Z),
      update a p 0 Q_out tstep = Raise ZeroDivisionError)
  ∧ (∀ (p Q_in Q_out : R) (tstep : Z),
      update 0 p Q_in Q_out tstep = Raise ZeroDivisionError).
Proof.
  split; intros; apply update_zero; auto.
Qed.

(** C4 as stated fails: the exception raised for a zero inflow is not a
    [MeasurementError], and the one raised for a zero area ratio is not
    a [ConfigurationError]. *)
Lemma zero_division_not_spec_errors :
  update 0.5 1 0 1 50 = Raise "ZeroDivisionError"
  ∧ update 0.5 1 0 1 50 ≠ Raise "MeasurementError"
  ∧ update 0 1 1 1 50 = Raise "ZeroDivisionError"
  ∧ update 0 1 1 1 50 ≠ Raise "ConfigurationError".
Proof.
  rewrite (update_zero 0.5 1 0 1 50) by auto.
  rewrite (update_zero 0 1 1 1 50) by auto.
  repeat split; discriminate.
Qed.



(** C8: when [delta = (R_optimal - R_actual) / R_optimal] is negative
    and the old pressure is above the threshold of the regime (1 before
    timestep 100, 2 from then on), the update returns the old pressure
    unchanged; so it does for pressure 1.5, delta -0.01, timestep 50. *)
Theorem anti_overshoot_clamp :
  (∀ (a p Q_in Q_out : R) (tstep : Z),
      a ≠ 0 → Q_in ≠ 0 → (a - Q_out / Q_in) / a < 0 →
      ((tstep < 100)%Z ∧ p > 1) ∨ ((100 ≤ tstep)%Z ∧ p > 2) →
      update a p Q_in Q_out tstep = Ok p)
  ∧ (∀ a Q_in Q_out : R,
      a ≠ 0 → Q_in ≠ 0 → (a - Q_out / Q_in) / a = -0.01 →
      update a 1.5 Q_in Q_out 50 = Ok 1.5).
Proof.
  assert (Hgen : ∀ (a p Q_in Q_out : R) (tstep : Z),
      a ≠ 0 → Q_in ≠ 0 → (a - Q_out / Q_in) / a < 0 →
      ((tstep < 100)%Z ∧ p > 1) ∨ ((100 ≤ tstep)%Z ∧ p > 2) →
      update a p Q_in Q_out tstep = Ok p).
  { intros a p Q_in Q_out tstep Ha Hin Hd Hreg.
    assert (Hout : Q_out ≠ 0).
    { intros ->. replace ((a - 0 / Q_in) / a) with 1 in Hd by (field; tauto). lra. }
    rewrite update_refines by assumption. unfold spec_update, spec_delta.
    destruct Hreg as [[Ht Hp] | [Ht Hp]].
    - rewrite cycle_phase_early by assumption.
      unfold linear_relaxation. case_decide; [reflexivity | tauto].
    - rewrite cycle_phase_steady by assumption.
      unfold dual_pressure. case_decide; [reflexivity | tauto]. }
  split; [exact Hgen |].
  intros a Q_in Q_out Ha Hin Hd. apply Hgen; [assumption | assumption | lra |].
  left. split; [lia | lra].
Qed.

Lemma anti_overshoot_clamp_witness :
  update 0.5 1.5 1000 505 50 = Ok 1.5
  ∧ update 0.5 2.5 1 0.6 100 = Ok 2.5.
Proof.
  split.
  - apply (proj2 anti_overshoot_clamp); lra.
  - apply (proj1 anti_overshoot_clamp); [lra | lra | lra |].
    right. split; [lia | lra].
Defined.

(** ** The gain [beta] *)

(** C6: [beta] is the four-case function of the specification, and it
    jumps at [err = 0.1]: just below, [beta(0.0999, -1)] is the
    quadratic [1 - 5*0.0999^2]; at the boundary, [beta(0.1, -1)] is
    0.5; for no pressure is [beta] continuous in [err] at 0.1. *)
Theorem beta_four_cases :
  (∀ err p : R,
      (p < 0 → err >= 0.1 → beta err p = 0.5)
      ∧ (p < 0 → err < 0.1 → beta err p = 1 - 5 * err ^ 2)
      ∧ (p >= 0 → err >= 0.1 → beta err p = 1.5)
      ∧ (p >= 0 → err < 0.1 → beta err p = 1 + 5 * err ^ 2))
  ∧ beta 0.0999 (-1) = 1 - 5 * 0.0999 ^ 2
  ∧ beta 0.1 (-1) = 0.5
  ∧ (∀ p : R, ¬ continuity_pt (λ err, beta err p) 0.1).
Proof.
  repeat split.
  - intros Hp He. unfold beta. by_comparisons.
  - intros Hp He. unfold beta. by_comparisons.
  - intros Hp He. unfold beta. by_comparisons.
  - intros Hp He. unfold beta. by_comparisons.
  - unfold beta. by_comparisons.
  - unfold beta. by_comparisons.
  - intros p Hc.
    destruct (Hc 0.1) as [alp [Halp Hlim]]; [lra |].
    set (x := 0.1 - Rmin (alp / 2) 0.05).
    assert (Hm1 : 0 < Rmin (alp / 2) 0.05) by (apply Rmin_glb_lt; lra).
    assert (Hm2 : Rmin (alp / 2) 0.05 <= alp / 2) by apply Rmin_l.
    assert (Hm3 : Rmin (alp / 2) 0.05 <= 0.05) by apply Rmin_r.
    specialize (Hlim x). cbn in Hlim. unfold R_dist, D_x, no_cond in Hlim.
    assert (Hx : Rabs (x - 0.1) < alp).
    { unfold x. apply Rabs_def1; lra. }
    assert (Hd : Rabs (beta x p - beta 0.1 p) < 0.1).
    { apply Hlim. repeat split; [unfold x; lra | exact Hx]. }
    apply Rabs_def2 in Hd. revert Hd. unfold beta, x.
    repeat case_decide; try lra; nra.
Qed.

Lemma beta_four_cases_witness :
  beta 0.2 (-1) = 0.5 ∧ beta 0.05 (-1) = 1 - 5 * 0.05 ^ 2
  ∧ beta 0.2 1 = 1.5 ∧ beta 0.05 1 = 1 + 5 * 0.05 ^ 2.
Proof.
  repeat split.
  - apply (proj1 beta_four_cases 0.2 (-1)); lra.
  - apply (proj1 beta_four_cases 0.05 (-1)); lra.
  - apply (proj1 beta_four_cases 0.2 1); lra.
  - apply (proj1 beta_four_cases 0.05 1); lra.
Defined.

(** ** The hook *)

Section Hook.
Variable sv : solver.
Variables (tstep : Z) (t : R).
Variables (id_in id_out : list Z) (area_ratio : list R).

Lemma sampled_iff : sampled tstep = true ↔ (tstep > 2)%Z.
Proof.
  unfold sampled. rewrite andb_true_iff, !bool_decide_eq_true.
  rewrite Z.mod_1_r. intuition.
Qed.

Lemma loop_body_inv (NS_expressions : expressions) (Q_in : R) (n : nat) (o : Z) (l : locals) :
  loop_body sv NS_expressions area_ratio Q_in n o = Ok l →
  ∃ a : R,
    area_ratio !! n = Some a
    ∧ outlet_p NS_expressions !! o = Some (p_old l)
    ∧ measure_split a (p_old l) Q_in (Rabs (assemble_flux sv o)) = Ok (quantities l)
    ∧ out_id l = o ∧ i l = n ∧ Q_out l = Rabs (assemble_flux sv o).
Proof.
  unfold loop_body, getitem, get_p.
  destruct (area_ratio !! n) as [a |]; [cbn | discriminate].
  destruct (outlet_p NS_expressions !! o) as [p |]; [cbn | discriminate].
  destruct (measure_split a p Q_in (Rabs (assemble_flux sv o))) as [fs |] eqn:Hfs;
    [cbn | discriminate].
  intros [= <-]. exists a. cbn. repeat split; auto.
Qed.

(** The names left behind by the loop are those of its last pass. *)
Lemma outlet_loop_last (NS_expressions : expressions) (Q_in : R) (ids : list Z) :
  ∀ (n : nat) (Q_outs Q_outs' : list R) (l0 l' : option locals),
    outlet_loop sv NS_expressions area_ratio Q_in n ids Q_outs l0 = Ok (Q_outs', l') →
    match last ids with
    | None => l' = l0
    | Some o =>
        ∃ l : locals,
          l' = Some l
          ∧ loop_body sv NS_expressions area_ratio Q_in (n + length ids - 1) o = Ok l
    end.
Proof.
  induction ids as [| o rest IH]; intros n Q_outs Q_outs' l0 l'; cbn.
  - now intros [= _ <-].
  - destruct (loop_body sv NS_expressions area_ratio Q_in n o) as [l |] eqn:Hl;
      [cbn | discriminate].
    intros Hloop. specialize (IH _ _ _ _ _ Hloop).
    destruct rest as [| o' rest'].
    + cbn in *. subst l'. exists l. split; [reflexivity |].
      now replace (n + 1 - 1)%nat with n by lia.
    + rewrite last_cons_cons.
      destruct (last (o' :: rest')) as [k |] eqn:Hlast;
        [| apply last_None in Hlast; discriminate].
      destruct IH as [lk [-> Hk]]. exists lk. split; [reflexivity |].
      cbn [length] in *.
      now replace (n + S (S (length rest')) - 1)%nat
        with (S n + S (length rest') - 1)%nat by lia.
Qed.

(** What the sampled branch assigns: the pressure of the last outlet
    of [id_out], updated from the area ratio, the old pressure and
    the flux of that outlet. *)
Lemma flux_and_pressure_inv (NS_expressions : expressions) (o : Z) (v : R) :
  flux_and_pressure sv tstep id_in id_out area_ratio NS_expressions = Ok (o, v) →
  ∃ (in0 : Z) (a p : R),
    id_in !! 0%nat = Some in0
    ∧ last id_out = Some o
    ∧ area_ratio !! (length id_out - 1)%nat = Some a
    ∧ outlet_p NS_expressions !! o = Some p
    ∧ update a p (Rabs (assemble_flux sv in0)) (Rabs (assemble_flux sv o)) tstep = Ok v.
Proof.
  unfold flux_and_pressure, getitem.
  destruct (id_in !! 0%nat) as [in0 |]; [cbn | discriminate].
  destruct (outlet_loop _ _ _ _ _ _ _ _) as [[Q_outs l'] |] eqn:Hloop;
    [cbn | discriminate].
  apply outlet_loop_last in Hloop.
  destruct l' as [l |]; [| discriminate].
  destruct (pressure_law tstep (p_old l) (quantities l)) as [v' |] eqn:Hv; [cbn | discriminate].
  intros [= <- <-].
  destruct (last id_out) as [k |] eqn:Hlast; [| discriminate].
  destruct Hloop as [lk [[= <-] Hbody]].
  apply loop_body_inv in Hbody as (a & Ha & Hp & Hfs & Ho & _).
  exists in0, a, (p_old l). rewrite Ho.
  repeat split; try assumption.
  unfold update. rewrite Hfs. exact Hv.
Qed.

(** Every outlet but the last of [id_out] keeps its pressure. *)
Lemma temporal_hook_frame (NS_expressions : expressions) (k : Z) :
  last id_out ≠ Some k →
  outlet_p (temporal_hook sv tstep t id_in id_out area_ratio NS_expressions).1 !! k
  = outlet_p NS_expressions !! k.
Proof.
  intros Hk. unfold temporal_hook.
  destruct (sampled tstep).
  - destruct (flux_and_pressure _ _ _ _ _ _) as [[o v] |] eqn:Hfp; [| reflexivity].
    apply flux_and_pressure_inv in Hfp as (_ & _ & _ & _ & Hlast & _).
    cbn. apply lookup_insert_ne. congruence.
  - now destruct (_ && _).
Qed.

Lemma loop_body_ok (NS_expressions : expressions) (Q_in : R) (n : nat) (o : Z) (a p : R) :
  area_ratio !! n = Some a →
  outlet_p NS_expressions !! o = Some p →
  a ≠ 0 → Q_in ≠ 0 → assemble_flux sv o ≠ 0 →
  loop_body sv NS_expressions area_ratio Q_in n o =
    Ok (mk_locals n o (Rabs (assemble_flux sv o)) (a * Q_in) p
          (mk_flow_split a (Rabs (assemble_flux sv o) / Q_in)
             (Rabs (a / (Rabs (assemble_flux sv o) / Q_in)))
             (Rabs (a - Rabs (assemble_flux sv o) / Q_in))
             (spec_E p (Rabs (a - Rabs (assemble_flux sv o) / Q_in)) a))).
Proof.
  intros Ha Hp Ha0 Hin Hout. unfold loop_body, getitem, get_p.
  rewrite Ha, Hp. cbn.
  rewrite measure_split_ok; [reflexivity | assumption | assumption |].
  now apply Rabs_no_R0.
Qed.

Lemma outlet_loop_ok (NS_expressions : expressions) (Q_in : R) (ids : list Z) :
  Q_in ≠ 0 →
  ∀ (n : nat) (Q_outs : list R) (l0 : option locals),
    healthy sv area_ratio NS_expressions n ids →
    ∃ (Q_outs' : list R) (l' : option locals),
      outlet_loop sv NS_expressions area_ratio Q_in n ids Q_outs l0 = Ok (Q_outs', l').
Proof.
  intros Hin. induction ids as [| o rest IH]; intros n Q_outs l0 Hh; cbn.
  - eauto.
  - destruct (Hh 0%nat o eq_refl) as (a & p & Ha & Hp & Ha0 & Ho).
    rewrite Nat.add_0_r in Ha.
    rewrite (loop_body_ok _ _ _ _ _ _ Ha Hp Ha0 Hin Ho). cbn.
    apply IH. intros k o' Hk.
    destruct (Hh (S k) o' Hk) as (a' & p' & Ha' & Hrest).
    exists a', p'. split; [| exact Hrest].
    now replace (S n + k)%nat with (n + S k)%nat by lia.
Qed.

(** On healthy outlets the sampled branch assigns to the last outlet
    the pressure that the specification describes for it. *)
Lemma flux_and_pressure_ok (NS_expressions : expressions) (in0 o : Z) (a p : R) :
  id_in !! 0%nat = Some in0 →
  assemble_flux sv in0 ≠ 0 →
  healthy sv area_ratio NS_expressions 0 id_out →
  last id_out = Some o →
  area_ratio !! (length id_out - 1)%nat = Some a →
  outlet_p NS_expressions !! o = Some p →
  flux_and_pressure sv tstep id_in id_out area_ratio NS_expressions =
    Ok (o, spec_update a p (Rabs (assemble_flux sv in0)) (Rabs (assemble_flux sv o)) tstep).
Proof.
  intros Hid Hflux Hh Hlast Ha Hp.
  assert (Hin : Rabs (assemble_flux sv in0) ≠ 0) by now apply Rabs_no_R0.
  destruct (outlet_loop_ok NS_expressions _ id_out Hin 0 [] None Hh)
    as (Q_outs & l' & Hloop).
  unfold flux_and_pressure, getitem. rewrite Hid. cbn. rewrite Hloop. cbn.
  apply outlet_loop_last in Hloop. rewrite Hlast in Hloop.
  destruct Hloop as (l & -> & Hbody). cbn [Nat.add] in Hbody.
  destruct (proj1 (last_Some _ _) Hlast) as [front Hfront].
  destruct (Hh (length front) o) as (a' & p' & Ha' & Hp' & Ha0 & Ho).
  { rewrite Hfront. apply list_lookup_middle. reflexivity. }
  assert (Hlen : (length id_out - 1)%nat = length front).
  { rewrite Hfront, length_app. cbn. lia. }
  rewrite Hlen in Ha, Hbody. cbn [Nat.add] in Ha'.
  assert (a' = a) by congruence. assert (p' = p) by congruence. subst a' p'.
  rewrite (loop_body_ok _ _ _ _ _ _ Ha Hp Ha0 Hin Ho) in Hbody.
  injection Hbody as <-. cbn.
  rewrite pressure_law_ok; cbn; [reflexivity | assumption |].
  apply Rabs_pos_lt, Rdiv_neq_0; [assumption |].
  apply Rdiv_neq_0; [now apply Rabs_no_R0 | assumption].
Qed.

(** A hook that raises has assigned no pressure. *)
Lemma temporal_hook_raise_frame (NS_expressions : expressions) (exc : string) :
  (temporal_hook sv tstep t id_in id_out area_ratio NS_expressions).2 = Raise exc →
  outlet_p (temporal_hook sv tstep t id_in id_out area_ratio NS_expressions).1
  = outlet_p NS_expressions.
Proof.
  unfold temporal_hook. destruct (sampled tstep).
  - destruct (flux_and_pressure _ _ _ _ _ _) as [[o v] |]; [discriminate | reflexivity].
  - now destruct (_ && _).
Qed.
End Hook.

Lemma example_healthy (t : R) :
  healthy example_solver [0.5; 0.5] (set_t example_expressions t) 0 [1%Z; 2%Z].
Proof.
  intros k o Hk.
  destruct k as [| [| k]]; cbn in Hk; [| | discriminate]; injection Hk as <-.
  - exists 0.5, 1. split; [reflexivity |]. split; [reflexivity |].
    split; [lra | cbn; lra].
  - exists 0.5, 1. split; [reflexivity |]. split; [reflexivity |].
    split; [lra | cbn; lra].
Qed.

(** C1, at two outlets: the hook updates the pressure of the last
    outlet only.  Outlet 1 keeps its pressure 1, although the update of
    its own area ratio, flux and pressure is 0.98; outlet 2 moves to the
    update of its own, 1.02. *)
Theorem hook_updates_last_outlet_only :
  let after := temporal_hook example_solver 50 0 [0%Z] [1%Z; 2%Z] [0.5; 0.5]
                 example_expressions in
  after.2 = Ok ()
  ∧ update 0.5 1 1 0.4 50 = Ok 0.98
  ∧ outlet_p after.1 !! 1%Z = Some 1
  ∧ outlet_p after.1 !! 1%Z ≠ Some 0.98
  ∧ update 0.5 1 1 0.6 50 = Ok 1.02
  ∧ outlet_p after.1 !! 2%Z = Some 1.02.
Proof.
  assert (Hlin : ∀ q : R, 0 < q → update 0.5 1 1 q 50 = Ok (1 * (1 - (0.5 - q / 1) / 0.5 * 0.1))).
  { intros q Hq. rewrite update_refines by lra.
    unfold spec_update, spec_delta. rewrite cycle_phase_early by lia.
    unfold linear_relaxation. case_decide; [exfalso; lra | reflexivity]. }
  assert (Hfp : flux_and_pressure example_solver 50 [0%Z] [1%Z; 2%Z] [0.5; 0.5]
                  (set_t example_expressions 0) = Ok (2%Z, 1.02)).
  { rewrite (flux_and_pressure_ok example_solver 50 [0%Z] [1%Z; 2%Z] [0.5; 0.5]
               (set_t example_expressions 0) 0%Z 2%Z 0.5 1);
      [| reflexivity | cbn; lra | apply example_healthy | reflexivity | reflexivity
       | reflexivity].
    cbn.
    rewrite !Rabs_pos_eq by lra.
    unfold spec_update, spec_delta. rewrite cycle_phase_early by lia.
    unfold linear_relaxation. case_decide; [exfalso; lra |].
    do 2 f_equal. lra. }
  cbn zeta. unfold temporal_hook.
  replace (sampled 50) with true by reflexivity. rewrite Hfp. cbn [fst snd].
  assert (H1 : outlet_p (set_p (set_t example_expressions 0) 2 1.02) !! 1%Z = Some 1)
    by reflexivity.
  split; [reflexivity |].
  split; [rewrite Hlin by lra; f_equal; lra |].
  split; [exact H1 |].
  split; [rewrite H1; intros [= H]; lra |].
  split; [rewrite Hlin by lra; f_equal; lra |].
  apply lookup_insert_eq.
Qed.

(** * Further properties of the code *)

(** ** The update at and around its target *)

Lemma Rpower_base_1 (y : R) : Rpower 1 y = 1.
Proof. unfold Rpower. rewrite ln_1, Rmult_0_r. apply exp_0. Qed.

Lemma beta_zero_error (p : R) : beta 0 p = 1.
Proof. unfold beta. by_comparisons. Qed.

(** X1: an outlet that already carries its share of the inflow keeps
    its pressure, in both regimes. *)
Theorem update_stationary_at_target (a p Q_in : R) (tstep : Z) :
  a ≠ 0 → Q_in ≠ 0 → update a p Q_in (a * Q_in) tstep = Ok p.
Proof.
  intros Ha Hin.
  assert (Hout : a * Q_in ≠ 0) by now apply Rmult_integral_contrapositive_currified.
  rewrite update_refines by assumption. f_equal.
  unfold spec_update, spec_delta.
  replace (a * Q_in / Q_in) with a by (field; assumption).
  replace (a - a) with 0 by lra.
  replace (a / a) with 1 by (field; assumption).
  replace (0 / a) with 0 by (field; assumption).
  rewrite Rabs_R0, Rabs_R1.
  destruct (cycle_phase tstep).
  - unfold linear_relaxation. case_decide; lra.
  - unfold dual_pressure. rewrite beta_zero_error, Rpower_base_1. case_decide; lra.
Qed.

Lemma update_stationary_at_target_witness :
  update 0.3 1.7 10 (0.3 * 10) 200 = Ok 1.7.
Proof. apply update_stationary_at_target; lra. Defined.

(** X4: for an error that is not negative, [beta] damps a negative
    pressure (values in [0.5, 1]) and amplifies any other (values in
    [1, 1.5]); with no error it is 1. *)
Theorem beta_range (err p : R) :
  0 <= err →
  (p < 0 → 0.5 <= beta err p <= 1)
  ∧ (p >= 0 → 1 <= beta err p <= 1.5)
  ∧ beta 0 p = 1.
Proof.
  intros He. split; [| split].
  - intros Hp. unfold beta. repeat case_decide; nra.
  - intros Hp. unfold beta. repeat case_decide; nra.
  - apply beta_zero_error.
Qed.

Lemma beta_range_witness :
  (-1 < 0 → 0.5 <= beta 0.05 (-1) <= 1)
  ∧ (-1 >= 0 → 1 <= beta 0.05 (-1) <= 1.5)
  ∧ beta 0 (-1) = 1.
Proof. apply beta_range. lra. Defined.

(** ** Exceptions of the loop body and of the loop *)

Lemma measure_split_raise (a p Q_in Q_out : R) (exc : string) :
  measure_split a p Q_in Q_out = Raise exc →
  exc = ZeroDivisionError ∧ (a = 0 ∨ Q_in = 0 ∨ Q_out = 0).
Proof.
  intros Hr.
  destruct (decide (a = 0)) as [Ha | Ha];
    [rewrite measure_split_zero in Hr by auto; injection Hr as <-; auto |].
  destruct (decide (Q_in = 0)) as [Hin | Hin];
    [rewrite measure_split_zero in Hr by auto; injection Hr as <-; auto |].
  destruct (decide (Q_out = 0)) as [Hout | Hout];
    [rewrite measure_split_zero in Hr by auto; injection Hr as <-; auto |].
  rewrite measure_split_ok in Hr by assumption. discriminate.
Qed.

Lemma measure_split_defined (a p Q_in Q_out : R) (fs : flow_split) :
  measure_split a p Q_in Q_out = Ok fs → a ≠ 0 ∧ Q_in ≠ 0 ∧ Q_out ≠ 0.
Proof.
  intros Hfs. repeat split; intros Hz;
    rewrite measure_split_zero in Hfs by auto; discriminate.
Qed.

Section Failures.
Variable sv : solver.
Variable area_ratio : list R.
Variable NS_expressions : expressions.
Variable Q_in : R.

Lemma loop_body_raise (n : nat) (o : Z) (exc : string) :
  loop_body sv NS_expressions area_ratio Q_in n o = Raise exc →
  (exc = IndexError ∧ area_ratio !! n = None)
  ∨ (exc = KeyError ∧ outlet_p NS_expressions !! o = None)
  ∨ (exc = ZeroDivisionError
     ∧ ∃ a : R, area_ratio !! n = Some a
         ∧ (a = 0 ∨ Q_in = 0 ∨ assemble_flux sv o = 0)).
Proof.
  unfold loop_body, getitem, get_p.
  destruct (area_ratio !! n) as [a |]; cbn; [| intros [= <-]; auto].
  destruct (outlet_p NS_expressions !! o) as [p |]; cbn; [| intros [= <-]; auto].
  destruct (measure_split a p Q_in (Rabs (assemble_flux sv o))) as [fs |] eqn:Hfs;
    cbn; [discriminate |].
  intros [= <-]. apply measure_split_raise in Hfs as [-> Hz].
  right. right. split; [reflexivity |]. exists a. split; [reflexivity |].
  destruct Hz as [Hz | [Hz | Hz]]; auto.
  right. right. destruct (decide (assemble_flux sv o = 0)) as [| Hne]; [assumption |].
  now apply Rabs_no_R0 in Hne.
Qed.

(** A loop that raises does so in the body of one of its outlets. *)
Lemma outlet_loop_raise (ids : list Z) (exc : string) :
  ∀ (n : nat) (Q_outs : list R) (l0 : option locals),
    outlet_loop sv NS_expressions area_ratio Q_in n ids Q_outs l0 = Raise exc →
    ∃ (k : nat) (o : Z),
      ids !! k = Some o
      ∧ loop_body sv NS_expressions area_ratio Q_in (n + k) o = Raise exc.
Proof.
  induction ids as [| o rest IH]; intros n Q_outs l0; cbn; [discriminate |].
  destruct (loop_body sv NS_expressions area_ratio Q_in n o) as [l |] eqn:Hl; cbn.
  - intros Hloop. apply IH in Hloop as (k & o' & Hk & Hbody).
    exists (S k), o'. split; [exact Hk |].
    now replace (n + S k)%nat with (S n + k)%nat by lia.
  - intros [= <-]. exists 0%nat, o. split; [reflexivity |].
    now rewrite Nat.add_0_r.
Qed.

(** The loop stops at the first outlet whose body raises. *)
Lemma outlet_loop_first_failure (front back : list Z) (o : Z) (exc : string) :
  ∀ (n : nat) (Q_outs : list R) (l0 : option locals),
    Q_in ≠ 0 →
    healthy sv area_ratio NS_expressions n front →
    loop_body sv NS_expressions area_ratio Q_in (n + length front) o = Raise exc →
    outlet_loop sv NS_expressions area_ratio Q_in n (front ++ o :: back) Q_outs l0
    = Raise exc.
Proof.
  induction front as [| f front IH]; intros n Q_outs l0 Hin Hh Hbody; cbn.
  - cbn in Hbody. rewrite Nat.add_0_r in Hbody. now rewrite Hbody.
  - destruct (Hh 0%nat f eq_refl) as (a & p & Ha & Hp & Ha0 & Ho).
    rewrite Nat.add_0_r in Ha.
    rewrite (loop_body_ok sv area_ratio _ _ _ _ _ _ Ha Hp Ha0 Hin Ho). cbn.
    apply IH; [assumption | |].
    + intros k o' Hk. destruct (Hh (S k) o' Hk) as (a' & p' & Ha' & Hrest).
      exists a', p'. split; [| exact Hrest].
      now replace (S n + k)%nat with (n + S k)%nat by lia.
    + cbn in Hbody. now replace (S n + length front)%nat
        with (n + S (length front))%nat by lia.
Qed.
End Failures.

(** ** What one call of the hook changes *)

Section HookEffects.
Variable sv : solver.
Variables (tstep : Z) (t : R).
Variables (id_in id_out : list Z) (area_ratio : list R).
Variable NS_expressions : expressions.

(** X6: whatever the timestep and the outcome, the hook leaves the
    pressure of every outlet other than the last one of [id_out] as it
    was. *)
Theorem hook_changes_last_outlet_only (k : Z) :
  last id_out ≠ Some k →
  outlet_p (temporal_hook sv tstep t id_in id_out area_ratio NS_expressions).1 !! k
  = outlet_p NS_expressions !! k.
Proof. apply temporal_hook_frame. Qed.

(** X7: the hook sets the time of every inlet component to [t], and
    it registers and removes no outlet, whether it raises or not. *)
Theorem hook_inlet_and_outlet_set :
  inlet (temporal_hook sv tstep t id_in id_out area_ratio NS_expressions).1
  = (λ _, t) <$> inlet NS_expressions
  ∧ dom (outlet_p (temporal_hook sv tstep t id_in id_out area_ratio NS_expressions).1)
    = dom (outlet_p NS_expressions).
Proof.
  unfold temporal_hook.
  destruct (sampled tstep).
  - destruct (flux_and_pressure _ _ _ _ _ _) as [[o v] |] eqn:Hfp; [| now split].
    apply flux_and_pressure_inv in Hfp as (_ & _ & p & _ & _ & _ & Hp & _).
    split; [reflexivity |]. cbn in *.
    rewrite dom_insert_L. apply elem_of_dom_2 in Hp.
    apply subseteq_union_1_L. now apply singleton_subseteq_l.
  - now destruct (_ && _).
Qed.

End HookEffects.

Lemma hook_changes_last_outlet_only_witness :
  outlet_p (temporal_hook example_solver 200 0 [0%Z] [1%Z; 2%Z] [0.5; 0.5]
              example_expressions).1 !! 1%Z
  = outlet_p example_expressions !! 1%Z.
Proof. apply hook_changes_last_outlet_only. cbn. discriminate. Defined.

(** ** Outcomes of the hook *)

Lemma sampled_true (tstep : Z) : (tstep > 2)%Z → sampled tstep = true.
Proof. apply sampled_iff. Qed.

(** X10: after timestep 2 an empty [id_in] makes the hook raise
    [IndexError], and an empty [id_out] makes it raise
    [UnboundLocalError] at the lines that follow the loop; on both only
    the inlet time has changed. *)
Theorem hook_on_empty_lists (sv : solver) (tstep : Z) (t : R) (area_ratio : list R)
    (NS_expressions : expressions) :
  (tstep > 2)%Z →
  (∀ id_out : list Z,
      temporal_hook sv tstep t [] id_out area_ratio NS_expressions
      = (set_t NS_expressions t, Raise IndexError))
  ∧ (∀ (in0 : Z) (id_in : list Z),
      temporal_hook sv tstep t (in0 :: id_in) [] area_ratio NS_expressions
      = (set_t NS_expressions t, Raise UnboundLocalError)).
Proof.
  intros Ht. split; intros; unfold temporal_hook;
    rewrite sampled_true by assumption; reflexivity.
Qed.

Lemma hook_on_empty_lists_witness :
  temporal_hook example_solver 50 0 [0%Z] [] [0.5; 0.5] example_expressions
  = (set_t example_expressions 0, Raise UnboundLocalError).
Proof.
  destruct (hook_on_empty_lists example_solver 50 0 [0.5; 0.5] example_expressions)
    as [_ Hout]; [lia | apply Hout].
Defined.

(** X11: the loop measures every outlet, so an outlet that cannot be
    measured aborts the hook even when it is not the one whose pressure
    would be assigned.  With the outlets before it healthy, a missing
    area ratio raises [IndexError], an unregistered outlet [KeyError],
    and a zero area ratio or a zero flux [ZeroDivisionError]; no
    pressure changes. *)
Theorem hook_aborts_at_first_bad_outlet (sv : solver) (tstep : Z) (t : R)
    (id_in front back : list Z) (area_ratio : list R) (NS_expressions : expressions)
    (in0 o : Z) :
  (tstep > 2)%Z →
  id_in !! 0%nat = Some in0 →
  assemble_flux sv in0 ≠ 0 →
  healthy sv area_ratio NS_expressions 0 front →
  let hook := temporal_hook sv tstep t id_in (front ++ o :: back) area_ratio
                NS_expressions in
  (area_ratio !! length front = None →
     hook = (set_t NS_expressions t, Raise IndexError))
  ∧ (is_Some (area_ratio !! length front) → outlet_p NS_expressions !! o = None →
     hook = (set_t NS_expressions t, Raise KeyError))
  ∧ (∀ a : R, area_ratio !! length front = Some a →
     is_Some (outlet_p NS_expressions !! o) →
     a = 0 ∨ assemble_flux sv o = 0 →
     hook = (set_t NS_expressions t, Raise ZeroDivisionError)).
Proof.
  intros Ht Hid Hflux Hh hook.
  assert (Hin : Rabs (assemble_flux sv in0) ≠ 0) by now apply Rabs_no_R0.
  assert (Hgen : ∀ exc : string,
    loop_body sv (set_t NS_expressions t) area_ratio (Rabs (assemble_flux sv in0))
      (0 + length front) o = Raise exc →
    hook = (set_t NS_expressions t, Raise exc)).
  { intros exc Hbody. unfold hook, temporal_hook.
    rewrite sampled_true by assumption.
    unfold flux_and_pressure, getitem. rewrite Hid. cbn.
    now rewrite (outlet_loop_first_failure sv area_ratio (set_t NS_expressions t)
                   (Rabs (assemble_flux sv in0)) front back o exc 0 [] None Hin Hh). }
  split; [| split].
  - intros Hnone. apply Hgen. unfold loop_body, getitem. cbn. now rewrite Hnone.
  - intros [a Ha] Hnone. apply Hgen. unfold loop_body, getitem, get_p. cbn.
    now rewrite Ha, Hnone.
  - intros a Ha [p Hp] Hz. apply Hgen. unfold loop_body, getitem, get_p. cbn.
    rewrite Ha, Hp. cbn. rewrite measure_split_zero; [reflexivity |].
    destruct Hz as [-> | ->]; [now left |]. right. right. apply Rabs_R0.
Qed.

Lemma hook_aborts_at_first_bad_outlet_witness :
  temporal_hook example_solver 50 0 [0%Z] ([] ++ 7%Z :: [2%Z]) [0.5; 0.5]
    example_expressions
  = (set_t example_expressions 0, Raise KeyError).
Proof.
  refine (proj1 (proj2 (hook_aborts_at_first_bad_outlet example_solver 50 0 [0%Z] []
                          [2%Z] [0.5; 0.5] example_expressions 0%Z 7%Z _ _ _ _)) _ _).
  - lia.
  - reflexivity.
  - cbn. lra.
  - intros k o' Hk. discriminate.
  - now exists 0.5.
  - reflexivity.
Defined.

(** X12: with no flux through the inlet, the hook raises
    [ZeroDivisionError] at the first outlet (given its area ratio and
    its registration), and changes no pressure. *)
Theorem hook_zero_inflow (sv : solver) (tstep : Z) (t : R)
    (id_in rest : list Z) (area_ratio : list R) (NS_expressions : expressions)
    (in0 o : Z) :
  (tstep > 2)%Z →
  id_in !! 0%nat = Some in0 →
  assemble_flux sv in0 = 0 →
  is_Some (area_ratio !! 0%nat) →
  is_Some (outlet_p NS_expressions !! o) →
  temporal_hook sv tstep t id_in (o :: rest) area_ratio NS_expressions
  = (set_t NS_expressions t, Raise ZeroDivisionError).
Proof.
  intros Ht Hid Hflux [a Ha] [p Hp]. unfold temporal_hook.
  rewrite sampled_true by assumption.
  unfold flux_and_pressure, getitem. rewrite Hid. cbn.
  unfold loop_body, getitem, get_p. cbn. rewrite Ha, Hp. cbn.
  rewrite Hflux, Rabs_R0. now rewrite measure_split_zero by auto.
Qed.

Lemma hook_zero_inflow_witness :
  temporal_hook (mk_solver (λ _, 0) 0) 50 0 [0%Z] [1%Z; 2%Z] [0.5; 0.5]
    example_expressions
  = (set_t example_expressions 0, Raise ZeroDivisionError).
Proof.
  apply (hook_zero_inflow (mk_solver (λ _, 0) 0) 50 0 [0%Z] [2%Z] [0.5; 0.5]
           example_expressions 0%Z 1%Z);
    [lia | reflexivity | reflexivity | now exists 0.5 | now exists 1].
Defined.

(** X13: up to timestep 2 the hook only sets the inlet time; it
    raises, with [UnboundLocalError] from the summary it prints, exactly
    on rank 0 at a timestep that is a multiple of 10, so never at
    timesteps 1 and 2. *)
Theorem hook_before_sampling (sv : solver) (tstep : Z) (t : R)
    (id_in id_out : list Z) (area_ratio : list R) (NS_expressions : expressions) :
  (tstep ≤ 2)%Z →
  let hook := temporal_hook sv tstep t id_in id_out area_ratio NS_expressions in
  hook.1 = set_t NS_expressions t
  ∧ (mpi_rank sv = 0 ∧ tstep `mod` 10 = 0 → hook.2 = Raise UnboundLocalError)%Z
  ∧ (¬ (mpi_rank sv = 0 ∧ tstep `mod` 10 = 0) → hook.2 = Ok ())%Z
  ∧ ((1 ≤ tstep)%Z → hook.2 = Ok ()).
Proof.
  intros Ht hook. unfold hook, temporal_hook.
  destruct (sampled tstep) eqn:Hs; [apply sampled_iff in Hs; lia |].
  repeat case_bool_decide; cbn; (split; [reflexivity |]);
    (split; [intros [? ?]; try reflexivity; contradiction |]);
    (split; [intros Hn; try reflexivity; exfalso; apply Hn; now split |]);
    intros H1; try reflexivity.
  exfalso. assert (Hcases : tstep = 1%Z ∨ tstep = 2%Z) by lia.
  destruct Hcases as [-> | ->]; discriminate.
Qed.

Lemma hook_before_sampling_witness :
  (temporal_hook example_solver 0 0 [0%Z] [1%Z; 2%Z] [0.5; 0.5] example_expressions).2
  = Raise UnboundLocalError
  ∧ (temporal_hook example_solver 1 0 [0%Z] [1%Z; 2%Z] [0.5; 0.5]
       example_expressions).2 = Ok ().
Proof.
  split.
  - destruct (hook_before_sampling example_solver 0 0 [0%Z] [1%Z; 2%Z] [0.5; 0.5]
                example_expressions) as (_ & Hr & _); [lia |].
    apply Hr. split; reflexivity.
  - destruct (hook_before_sampling example_solver 1 0 [0%Z] [1%Z; 2%Z] [0.5; 0.5]
                example_expressions) as (_ & _ & _ & Hok); [lia |].
    apply Hok. lia.
Defined.

(** ** The initial pressures of [create_bcs] *)

Lemma fold_left_Rplus (l : list R) (x : R) : fold_left Rplus l x = x + py_sum l.
Proof.
  unfold py_sum. revert x. induction l as [| a l IH]; intros x; cbn.
  - lra.
  - rewrite (IH (x + a)), (IH (0 + a)). lra.
Qed.

Lemma py_sum_cons (a : R) (l : list R) : py_sum (a :: l) = a + py_sum l.
Proof. unfold py_sum at 1. cbn. rewrite fold_left_Rplus. lra. Qed.

Lemma py_sum_scaled (l : list R) (c : R) :
  py_sum ((λ a, a / c) <$> l) = py_sum l / c.
Proof.
  induction l as [| a l IH].
  - unfold py_sum. cbn. unfold Rdiv. now rewrite Rmult_0_l.
  - rewrite fmap_cons, !py_sum_cons, IH. unfold Rdiv. lra.
Qed.

Lemma py_sum_nonneg (l : list R) : Forall (λ a, 0 <= a) l → 0 <= py_sum l.
Proof.
  induction 1 as [| a l Ha _ IH].
  - unfold py_sum. cbn. lra.
  - rewrite py_sum_cons. lra.
Qed.

Lemma py_sum_bounds_element (l : list R) (a : R) :
  Forall (λ a, 0 <= a) l → a ∈ l → a <= py_sum l.
Proof.
  intros Hl Ha. induction Hl as [| b l Hb Hl IH]; [inversion Ha |].
  rewrite py_sum_cons. apply elem_of_cons in Ha as [-> | Ha].
  - pose proof (py_sum_nonneg l Hl). lra.
  - specialize (IH Ha). lra.
Qed.

Section CreateBcs.
Variable assemble_area : Z → R.
Variable total : R.
Hypothesis total_nonzero : total ≠ 0.

(** The loop over the outlets from index [n] on, when the total area
    is not zero. *)
Lemma pressure_bc_loop_ok (area_out : list R) (ids : list Z) :
  py_sum area_out = total →
  ∀ (n : nat) (NS_expressions : expressions) (bc_p : list (Z * R)),
    (∀ (k : nat) (ID : Z), ids !! k = Some ID →
        area_out !! (n + k)%nat = Some (assemble_area ID)) →
    ∃ NS' : expressions,
      pressure_bc_loop area_out n ids NS_expressions bc_p
      = (NS', Ok (bc_p ++ ((λ ID, (ID, assemble_area ID / total)) <$> ids))%list)
      ∧ inlet NS' = inlet NS_expressions
      ∧ (∀ ID : Z, ID ∈ ids → outlet_p NS' !! ID = Some (assemble_area ID / total))
      ∧ (∀ ID : Z, ID ∉ ids → outlet_p NS' !! ID = outlet_p NS_expressions !! ID).
Proof.
  intros Hsum. induction ids as [| ID rest IH]; intros n NS bc_p Hareas; cbn.
  - exists NS. rewrite app_nil_r.
    split; [reflexivity |]. split; [reflexivity |].
    split; [intros ID HID; inversion HID | reflexivity].
  - pose proof (Hareas 0%nat ID eq_refl) as Ha. rewrite Nat.add_0_r in Ha.
    unfold getitem. rewrite Ha. cbn. rewrite Hsum, float_div_ok by assumption.
    destruct (IH (S n) (register_outflow NS ID (assemble_area ID / total))
                (bc_p ++ [(ID, assemble_area ID / total)])%list)
    as (NS' & Hloop & Hinlet & Hin & Hout).
    { intros k ID' Hk. specialize (Hareas (S k) ID' Hk).
      now replace (S n + k)%nat with (n + S k)%nat by lia. }
    exists NS'. rewrite Hloop, <- app_assoc. cbn.
    split; [reflexivity |]. split; [exact Hinlet |]. split.
    + intros ID' HID'. destruct (decide (ID' ∈ rest)) as [Hr | Hr]; [now apply Hin |].
      apply elem_of_cons in HID' as [-> | HID']; [| contradiction].
      rewrite (Hout ID Hr). cbn. apply lookup_insert_eq.
    + intros ID' HID'. apply not_elem_of_cons in HID' as [Hne Hr].
      rewrite (Hout ID' Hr). cbn. now apply lookup_insert_ne.
Qed.
End CreateBcs.

Lemma create_pressure_bcs_ok (assemble_area : Z → R) (id_out : list Z)
    (NS_expressions : expressions) :
  py_sum (assemble_area <$> id_out) ≠ 0 →
  ∃ NS' : expressions,
    create_pressure_bcs assemble_area id_out NS_expressions
    = (NS', Ok ((λ ID, (ID, assemble_area ID / py_sum (assemble_area <$> id_out)))
                  <$> id_out))
    ∧ inlet NS' = inlet NS_expressions
    ∧ (∀ ID : Z, ID ∈ id_out →
         outlet_p NS' !! ID
         = Some (assemble_area ID / py_sum (assemble_area <$> id_out)))
    ∧ (∀ ID : Z, ID ∉ id_out → outlet_p NS' !! ID = outlet_p NS_expressions !! ID).
Proof.
  intros Htotal. unfold create_pressure_bcs.
  destruct (pressure_bc_loop_ok assemble_area _ Htotal (assemble_area <$> id_out)
              id_out eq_refl 0 NS_expressions []) as (NS' & Hloop & Hrest).
  { intros k ID Hk. cbn. now rewrite list_lookup_fmap, Hk. }
  exists NS'. split; [exact Hloop | exact Hrest].
Qed.

(** X15: when the total outlet area is not zero, [create_bcs]
    registers every outlet of [id_out] with its share of the total
    area, leaves the other expressions alone, and the initial pressures
    it lists add up to 1. *)
Theorem create_bcs_initial_pressures (assemble_area : Z → R) (id_out : list Z)
    (NS_expressions : expressions) :
  let total := py_sum (assemble_area <$> id_out) in
  total ≠ 0 →
  ∃ (NS' : expressions) (bc_p : list (Z * R)),
    create_pressure_bcs assemble_area id_out NS_expressions = (NS', Ok bc_p)
    ∧ bc_p.*1 = id_out
    ∧ py_sum bc_p.*2 = 1
    ∧ (∀ ID : Z, ID ∈ id_out → outlet_p NS' !! ID = Some (assemble_area ID / total))
    ∧ (∀ ID : Z, ID ∉ id_out → outlet_p NS' !! ID = outlet_p NS_expressions !! ID)
    ∧ inlet NS' = inlet NS_expressions.
Proof.
  intros total Htotal.
  destruct (create_pressure_bcs_ok assemble_area id_out NS_expressions Htotal)
    as (NS' & Hcreate & Hinlet & Hin & Hout).
  exists NS'. eexists. split; [exact Hcreate |].
  split; [| split; [| auto]].
  - rewrite <- list_fmap_compose. apply list_fmap_id.
  - rewrite <- list_fmap_compose.
    change (py_sum ((λ a, a / total) ∘ assemble_area <$> id_out) = 1).
    rewrite list_fmap_compose, py_sum_scaled. fold total. now field.
Qed.

Lemma create_bcs_initial_pressures_witness :
  ∃ (NS' : expressions) (bc_p : list (Z * R)),
    create_pressure_bcs (λ ID, IZR ID) [1%Z; 3%Z] example_expressions = (NS', Ok bc_p)
    ∧ bc_p.*1 = [1%Z; 3%Z]
    ∧ py_sum bc_p.*2 = 1
    ∧ (∀ ID : Z, ID ∈ [1%Z; 3%Z] →
         outlet_p NS' !! ID = Some (IZR ID / py_sum (IZR <$> [1%Z; 3%Z])))
    ∧ (∀ ID : Z, ID ∉ [1%Z; 3%Z] →
         outlet_p NS' !! ID = outlet_p example_expressions !! ID)
    ∧ inlet NS' = inlet example_expressions.
Proof.
  apply (create_bcs_initial_pressures (λ ID, IZR ID) [1%Z; 3%Z] example_expressions).
  unfold py_sum. cbn. lra.
Defined.

(** X16: with no outlet [create_bcs] registers nothing and returns an
    empty list; with outlets of total area zero it raises
    [ZeroDivisionError] at the first one and registers nothing. *)
Theorem create_bcs_degenerate (assemble_area : Z → R) (NS_expressions : expressions) :
  create_pressure_bcs assemble_area [] NS_expressions = (NS_expressions, Ok [])
  ∧ (∀ (ID : Z) (rest : list Z),
      py_sum (assemble_area <$> ID :: rest) = 0 →
      create_pressure_bcs assemble_area (ID :: rest) NS_expressions
      = (NS_expressions, Raise ZeroDivisionError)).
Proof.
  split; [reflexivity |].
  intros ID rest Hzero. unfold create_pressure_bcs. cbn [pressure_bc_loop].
  unfold getitem. cbn [fmap list_fmap lookup list_lookup mbind result_bind].
  rewrite fmap_cons in Hzero. now rewrite Hzero, float_div_zero.
Qed.

Lemma create_bcs_degenerate_witness :
  create_pressure_bcs (λ _, 0) [1%Z; 2%Z] example_expressions
  = (example_expressions, Raise ZeroDivisionError).
Proof.
  apply (proj2 (create_bcs_degenerate (λ _, 0) example_expressions)).
  unfold py_sum. cbn. lra.
Defined.

(** ** [create_bcs] followed by the hook *)

(** A hook that raises [KeyError] met an outlet that is not registered. *)
Lemma hook_KeyError_unregistered (sv : solver) (tstep : Z) (t : R)
    (id_in id_out : list Z) (area_ratio : list R) (NS_expressions : expressions) :
  (temporal_hook sv tstep t id_in id_out area_ratio NS_expressions).2 = Raise KeyError →
  ∃ o : Z, o ∈ id_out ∧ outlet_p NS_expressions !! o = None.
Proof.
  unfold temporal_hook.
  destruct (sampled tstep); [| destruct (_ && _); discriminate].
  destruct (flux_and_pressure _ _ _ _ _ _) as [[o v] | e] eqn:Hfp; [discriminate |].
  intros Heq. injection Heq as ->. revert Hfp. unfold flux_and_pressure, getitem.
  destruct (id_in !! 0%nat) as [in0 |]; cbn; [| discriminate].
  destruct (outlet_loop _ _ _ _ _ _ _ _) as [[Q_outs l'] | e'] eqn:Hloop; cbn.
  - destruct l' as [l |]; [| discriminate].
    apply outlet_loop_last in Hloop.
    destruct (last id_out) as [k |]; [| discriminate].
    destruct Hloop as (lk & Heq & Hbody). injection Heq as <-.
    apply loop_body_inv in Hbody as (a & _ & _ & Hfs & _).
    pose proof (measure_split_defined _ _ _ _ _ Hfs) as (Ha & Hin & Hout).
    pose proof (update_refines a (p_old l) _ _ tstep Ha Hin Hout) as Hu.
    unfold update in Hu. rewrite Hfs in Hu. cbn in Hu. rewrite Hu. discriminate.
  - intros Heq. injection Heq as ->.
    apply outlet_loop_raise in Hloop as (k & o & Hk & Hbody).
    apply loop_body_raise in Hbody as [[He _] | [[_ Hnone] | [He _]]];
      [discriminate | | discriminate].
    exists o. split; [eapply list_elem_of_lookup_2; exact Hk | exact Hnone].
Qed.

(** X17: on the expressions that [create_bcs] leaves for [id_out],
    no call of the hook over the same outlets raises [KeyError]. *)
Theorem hook_after_create_bcs_finds_outlets (assemble_area : Z → R) (sv : solver)
    (tstep : Z) (t : R) (id_in id_out : list Z) (area_ratio : list R)
    (NS_expressions : expressions) :
  py_sum (assemble_area <$> id_out) ≠ 0 →
  (temporal_hook sv tstep t id_in id_out area_ratio
     (create_pressure_bcs assemble_area id_out NS_expressions).1).2
  ≠ Raise KeyError.
Proof.
  intros Htotal Hraise.
  destruct (create_pressure_bcs_ok assemble_area id_out NS_expressions Htotal)
    as (NS' & Hcreate & _ & Hin & _).
  rewrite Hcreate in Hraise. cbn [fst] in Hraise.
  apply hook_KeyError_unregistered in Hraise as (o & Ho & Hnone).
  rewrite (Hin o Ho) in Hnone. discriminate.
Qed.

Lemma hook_after_create_bcs_finds_outlets_witness :
  (temporal_hook example_solver 50 0 [0%Z] [1%Z; 3%Z] [0.5; 0.5]
     (create_pressure_bcs (λ ID, IZR ID) [1%Z; 3%Z] example_expressions).1).2
  ≠ Raise KeyError.
Proof.
  apply hook_after_create_bcs_finds_outlets. unfold py_sum. cbn. lra.
Defined.

(** X18: when the outlets have positive areas, every initial pressure
    lies in (0, 1], and expressions that held positive pressures before
    [create_bcs] hold positive pressures after it. *)
Theorem create_bcs_positive_pressures (assemble_area : Z → R) (ID : Z) (rest : list Z)
    (NS_expressions : expressions) :
  Forall (λ ID, 0 < assemble_area ID) (ID :: rest) →
  ∃ (NS' : expressions) (bc_p : list (Z * R)),
    create_pressure_bcs assemble_area (ID :: rest) NS_expressions = (NS', Ok bc_p)
    ∧ Forall (λ b, 0 < b.2 <= 1) bc_p
    ∧ (map_Forall (λ _ p, 0 < p) (outlet_p NS_expressions) →
       map_Forall (λ _ p, 0 < p) (outlet_p NS')).
Proof.
  intros Hpos. set (id_out := ID :: rest) in *.
  set (total := py_sum (assemble_area <$> id_out)).
  assert (Hnonneg : Forall (λ a, 0 <= a) (assemble_area <$> id_out)).
  { apply Forall_fmap. eapply Forall_impl; [exact Hpos |]. cbn. intros; lra. }
  assert (Hbound : ∀ o : Z, o ∈ id_out → 0 < assemble_area o <= total).
  { intros o Ho. split; [exact (proj1 (Forall_forall _ _) Hpos o Ho) |].
    apply py_sum_bounds_element; [exact Hnonneg |].
    apply list_elem_of_fmap. now exists o. }
  assert (Htotal : 0 < total).
  { destruct (Hbound ID) as [H1 H2]; [apply list_elem_of_here | lra]. }
  assert (Hshare : ∀ o : Z, o ∈ id_out → 0 < assemble_area o / total <= 1).
  { intros o Ho. destruct (Hbound o Ho) as [H1 H2]. split.
    - now apply Rdiv_lt_0_compat.
    - apply (Rmult_le_reg_r total); [assumption |].
      unfold Rdiv. rewrite Rmult_assoc, Rinv_l by lra. lra. }
  destruct (create_pressure_bcs_ok assemble_area id_out NS_expressions)
    as (NS' & Hcreate & _ & Hin & Hout); [fold total; lra |].
  exists NS'. eexists. split; [exact Hcreate |]. split.
  - apply Forall_fmap, Forall_forall. intros o Ho. cbn. now apply Hshare.
  - intros Hbefore o p Hp.
    destruct (decide (o ∈ id_out)) as [Ho | Ho].
    + rewrite (Hin o Ho) in Hp. injection Hp as <-. now apply Hshare.
    + rewrite (Hout o Ho) in Hp. exact (Hbefore o p Hp).
Qed.

Lemma create_bcs_positive_pressures_witness :
  ∃ (NS' : expressions) (bc_p : list (Z * R)),
    create_pressure_bcs (λ ID, IZR ID) [1%Z; 3%Z] example_expressions = (NS', Ok bc_p)
    ∧ Forall (λ b, 0 < b.2 <= 1) bc_p
    ∧ (map_Forall (λ _ p, 0 < p) (outlet_p example_expressions) →
       map_Forall (λ _ p, 0 < p) (outlet_p NS')).
Proof.
  apply (create_bcs_positive_pressures (λ ID, IZR ID) 1%Z [3%Z] example_expressions).
  repeat constructor; lra.
Defined.

(** ** Paths *)

Lemma path_join_relative (path b : string) :
  startswith_sep b = false → path_join path b = path +:+ sep_after path +:+ b.
Proof.
  intros Hb. unfold path_join, sep_after. rewrite Hb.
  now destruct (bool_decide (path = "") || endswith_sep path).
Qed.

Lemma path_join_absolute (path b : string) :
  startswith_sep b = true → path_join path b = b.
Proof. intros Hb. unfold path_join. now rewrite Hb. Qed.

Lemma path_join_inj (path a b : string) :
  startswith_sep a = false → startswith_sep b = false →
  path_join path a = path_join path b → a = b.
Proof.
  intros Ha Hb. rewrite !path_join_relative by assumption.
  intros Heq. apply (inj (String.app path)) in Heq.
  now apply (inj (String.app (sep_after path))) in Heq.
Qed.

(** X20: the dictionary returned by [get_file_paths] has the keys
    [u], [p], [u_mean] and [nut], with three files under each of [u] and
    [u_mean], and its eight paths are pairwise distinct, whatever the
    folder and the counter. *)
Theorem file_paths_distinct (folder : string) (counter : nat) :
  ∃ u0 u1 u2 p m0 m1 m2 nut : string,
    file_paths folder counter !! "u" = Some (FileList [u0; u1; u2])
    ∧ file_paths folder counter !! "p" = Some (OneFile p)
    ∧ file_paths folder counter !! "u_mean" = Some (FileList [m0; m1; m2])
    ∧ file_paths folder counter !! "nut" = Some (OneFile nut)
    ∧ dom (file_paths folder counter) = {["u"; "p"; "u_mean"; "nut"]}
    ∧ NoDup [u0; u1; u2; p; m0; m1; m2; nut].
Proof.
  unfold file_paths.
  set (common_path := path_join (path_join (path_join folder "data") (pretty counter)) "VTK").
  do 8 eexists.
  split; [apply lookup_insert_eq |].
  split; [rewrite lookup_insert_ne by discriminate; apply lookup_insert_eq |].
  split; [rewrite !lookup_insert_ne by discriminate; apply lookup_insert_eq |].
  split; [rewrite !lookup_insert_ne by discriminate; apply lookup_insert_eq |].
  split; [rewrite !dom_insert_L, dom_empty_L; set_solver |].
  change (NoDup (path_join common_path <$>
    ["u0.h5"; "u1.h5"; "u2.h5"; "p.h5"; "u0_mean.h5"; "u1_mean.h5"; "u2_mean.h5";
     "nut.h5"])).
  apply NoDup_fmap_2_strong.
  - intros a b Ha Hb. apply path_join_inj.
    + revert Ha. rewrite !elem_of_cons, elem_of_nil.
      intros H; repeat destruct H as [-> | H]; try reflexivity; contradiction.
    + revert Hb. rewrite !elem_of_cons, elem_of_nil.
      intros H; repeat destruct H as [-> | H]; try reflexivity; contradiction.
  - apply NoDup_ListNoDup. repeat constructor; cbn; intuition discriminate.
Qed.

(** ** Decimal numbers in paths *)

Lemma pretty_N_go_no_sep (x : N) :
  ∀ s : string, contains_char "/" s = false →
    contains_char "/" (pretty_N_go x s) = false.
Proof.
  induction (N.lt_wf_0 x) as [x _ IH]. intros s Hs.
  destruct (decide (x = 0%N)) as [-> | Hx]; [now rewrite pretty_N_go_0 |].
  rewrite pretty_N_go_step by lia. apply IH; [apply N.div_lt; lia |].
  cbn. rewrite Hs. unfold pretty_N_char.
  repeat case_match; reflexivity.
Qed.

Lemma pretty_N_go_nonempty (x : N) :
  ∀ s : string, s ≠ "" → pretty_N_go x s ≠ "".
Proof.
  induction (N.lt_wf_0 x) as [x _ IH]. intros s Hs.
  destruct (decide (x = 0%N)) as [-> | Hx]; [now rewrite pretty_N_go_0 |].
  rewrite pretty_N_go_step by lia. apply IH; [apply N.div_lt; lia | discriminate].
Qed.

Lemma pretty_nat_no_sep (n : nat) : contains_char "/" (pretty n) = false.
Proof.
  unfold pretty, pretty_nat, pretty, pretty_N.
  case_decide; [reflexivity | now apply pretty_N_go_no_sep].
Qed.

Lemma pretty_nat_nonempty (n : nat) : pretty n ≠ "".
Proof.
  unfold pretty, pretty_nat, pretty, pretty_N.
  case_decide as Hn; [discriminate |].
  rewrite pretty_N_go_step by lia. apply pretty_N_go_nonempty. discriminate.
Qed.

Lemma no_sep_startswith (s : string) :
  contains_char "/" s = false → startswith_sep s = false.
Proof.
  destruct s as [| c r]; [reflexivity |]. cbn.
  now intros [Hc _]%orb_false_iff.
Qed.

Lemma no_sep_endswith (s : string) :
  contains_char "/" s = false → endswith_sep s = false.
Proof.
  induction s as [| c r IH]; [reflexivity |]. cbn.
  intros [Hc Hr]%orb_false_iff. destruct r; [exact Hc | now apply IH].
Qed.

Lemma app_nonempty (a s : string) : s ≠ "" → a +:+ s ≠ "".
Proof. intros Hs. destruct a; [exact Hs | discriminate]. Qed.

Lemma endswith_sep_app (a s : string) :
  s ≠ "" → endswith_sep (a +:+ s) = endswith_sep s.
Proof.
  intros Hs. induction a as [| c a IH]; [reflexivity |].
  change (String c a +:+ s) with (String c (a +:+ s)).
  destruct (a +:+ s) eqn:Happ; [| exact IH].
  apply app_nonempty with (a := a) in Hs. contradiction.
Qed.

Lemma sep_after_app (a s : string) :
  s ≠ "" → contains_char "/" s = false → sep_after (a +:+ s) = "/".
Proof.
  intros Hs Hsep. unfold sep_after.
  rewrite bool_decide_eq_false_2 by now apply app_nonempty.
  now rewrite endswith_sep_app, no_sep_endswith.
Qed.

(** Two paths that agree after prefixes without separator have the
    same prefix. *)
Lemma no_sep_prefix_inj (d1 d2 r1 r2 : string) :
  contains_char "/" d1 = false → contains_char "/" d2 = false →
  d1 +:+ "/" +:+ r1 = d2 +:+ "/" +:+ r2 → d1 = d2.
Proof.
  revert d2. induction d1 as [| c1 d1 IH]; intros [| c2 d2]; cbn.
  - reflexivity.
  - intros _ [Hc _]%orb_false_iff [= <- _]. now apply bool_decide_eq_false in Hc.
  - intros [Hc _]%orb_false_iff _ [= -> _]. now apply bool_decide_eq_false in Hc.
  - intros [_ H1]%orb_false_iff [_ H2]%orb_false_iff [= -> Heq].
    f_equal. now apply IH.
Qed.

Lemma string_app_assoc (a b c : string) : (a +:+ b) +:+ c = a +:+ b +:+ c.
Proof.
  induction a as [| x a IH]; [reflexivity |].
  change (String x ((a +:+ b) +:+ c) = String x (a +:+ b +:+ c)).
  f_equal. exact IH.
Qed.

(** The directory of a run, spelled out: the counter in decimal sits
    between the data directory and [/VTK]. *)
Lemma common_path_shape (folder : string) (counter : nat) :
  common_path folder counter
  = path_join folder "data" +:+ sep_after (path_join folder "data")
    +:+ pretty counter +:+ "/" +:+ "VTK".
Proof.
  unfold common_path.
  rewrite (path_join_relative _ (pretty counter))
    by apply no_sep_startswith, pretty_nat_no_sep.
  rewrite (path_join_relative _ "VTK") by reflexivity.
  rewrite <- (string_app_assoc (path_join folder "data")).
  rewrite sep_after_app by (apply pretty_nat_nonempty || apply pretty_nat_no_sep).
  now rewrite !string_app_assoc.
Qed.

Lemma run_paths_differ (folder : string) (c1 c2 : nat) (n1 n2 : string) :
  startswith_sep n1 = false → startswith_sep n2 = false →
  path_join (common_path folder c1) n1 = path_join (common_path folder c2) n2 →
  c1 = c2.
Proof.
  intros H1 H2. rewrite !path_join_relative, !common_path_shape by assumption.
  rewrite !string_app_assoc. intros Heq.
  apply (inj (String.app _)) in Heq. apply (inj (String.app _)) in Heq.
  apply no_sep_prefix_inj in Heq; try apply pretty_nat_no_sep.
  now apply (inj pretty) in Heq.
Qed.

(** The paths of a dictionary of files lie in the directory of its run. *)
Lemma holds_path_in_common (folder : string) (counter : nat) (f : string) :
  holds_path (file_paths folder counter) f →
  ∃ name : string,
    startswith_sep name = false ∧ f = path_join (common_path folder counter) name.
Proof.
  unfold file_paths. fold (common_path folder counter).
  intros [key Hkey].
  assert (Hlist : ∀ (suffix : string) (fs : list string),
    fs = (λ i : nat, path_join (common_path folder counter) ("u" +:+ pretty i +:+ suffix))
           <$> seq 0 3 →
    f ∈ fs →
    ∃ name : string,
      startswith_sep name = false ∧ f = path_join (common_path folder counter) name).
  { intros suffix fs -> (i & -> & _)%list_elem_of_fmap. eexists. split; [| reflexivity].
    reflexivity. }
  destruct Hkey as [Hone | (fs & Hfs & Hin)].
  - apply lookup_insert_Some in Hone as [[_ Heq] | [_ Hone]]; [discriminate |].
    apply lookup_insert_Some in Hone as [[_ Heq] | [_ Hone]];
      [injection Heq as <-; now eexists |].
    apply lookup_insert_Some in Hone as [[_ Heq] | [_ Hone]]; [discriminate |].
    apply lookup_insert_Some in Hone as [[_ Heq] | [_ Hone]];
      [injection Heq as <-; now eexists |].
    now rewrite lookup_empty in Hone.
  - apply lookup_insert_Some in Hfs as [[_ Heq] | [_ Hfs]];
      [injection Heq as <-; eapply Hlist; [reflexivity | exact Hin] |].
    apply lookup_insert_Some in Hfs as [[_ Heq] | [_ Hfs]]; [discriminate |].
    apply lookup_insert_Some in Hfs as [[_ Heq] | [_ Hfs]];
      [injection Heq as <-; eapply Hlist; [reflexivity | exact Hin] |].
    apply lookup_insert_Some in Hfs as [[_ Heq] | [_ Hfs]]; [discriminate |].
    now rewrite lookup_empty in Hfs.
Qed.

(** X21: two runs with different counters share no file: no path of
    the dictionary of one run is a path of the other. *)
Theorem file_paths_of_runs_disjoint (folder : string) (c1 c2 : nat) (f : string) :
  c1 ≠ c2 →
  holds_path (file_paths folder c1) f →
  ¬ holds_path (file_paths folder c2) f.
Proof.
  intros Hne (n1 & Hn1 & ->)%holds_path_in_common (n2 & Hn2 & Heq)%holds_path_in_common.
  apply Hne. now apply (run_paths_differ folder c1 c2 n1 n2).
Qed.

Lemma file_paths_of_runs_disjoint_witness :
  holds_path (file_paths "results" 1) (path_join (common_path "results" 1) "p.h5")
  ∧ ¬ holds_path (file_paths "results" 12) (path_join (common_path "results" 1) "p.h5").
Proof.
  assert (H1 : holds_path (file_paths "results" 1)
                 (path_join (common_path "results" 1) "p.h5")).
  { exists "p". left. unfold file_paths. fold (common_path "results" 1).
    rewrite lookup_insert_ne by discriminate. apply lookup_insert_eq. }
  split; [exact H1 |].
  apply (file_paths_of_runs_disjoint "results" 1 12); [lia | exact H1].
Defined.

(** ** The run counter of [get_file_paths] *)










(** ** The case name and the folders derived from it *)

Lemma case_name_no_dot (p : string) : contains_char "." (case_name p) = false.
Proof.
  induction p as [| c r IH]; [reflexivity |]. cbn.
  case_bool_decide as Hc; [reflexivity |]. cbn.
  now rewrite bool_decide_eq_false_2, IH.
Qed.

Lemma case_name_before_dot (s ext : string) :
  contains_char "." s = false → case_name (s +:+ "." +:+ ext) = s.
Proof.
  induction s as [| c s IH]; [reflexivity |].
  cbn [contains_char]. intros [Hc Hs]%orb_false_iff.
  change (String c s +:+ "." +:+ ext) with (String c (s +:+ "." +:+ ext)).
  cbn [case_name]. rewrite Hc. f_equal. now apply IH.
Qed.

(** X22: the case name is the mesh path up to its first dot.  It
    holds no dot, it is the whole path when the path has none, and mesh
    paths that differ only after their first dot have the same case
    name, hence the same results folder and input files. *)
Theorem case_name_up_to_first_dot :
  (∀ p : string, contains_char "." (case_name p) = false)
  ∧ (∀ p : string, contains_char "." p = false → case_name p = p)
  ∧ (∀ s ext : string, contains_char "." s = false → case_name (s +:+ "." +:+ ext) = s)
  ∧ (∀ p : string, contains_char "." p = true →
       ∃ ext : string, p = case_name p +:+ "." +:+ ext)
  ∧ (∀ s ext1 ext2 here : string, contains_char "." s = false →
       results_folder (s +:+ "." +:+ ext1) = results_folder (s +:+ "." +:+ ext2)
       ∧ info_path here (s +:+ "." +:+ ext1) = info_path here (s +:+ "." +:+ ext2)
       ∧ probe_points_path here (s +:+ "." +:+ ext1)
         = probe_points_path here (s +:+ "." +:+ ext2)).
Proof.
  split; [apply case_name_no_dot |].
  split.
  { intros p. induction p as [| c r IH]; [reflexivity |]. cbn.
    intros [Hc Hr]%orb_false_iff. rewrite Hc. f_equal. now apply IH. }
  split; [apply case_name_before_dot |].
  split.
  { intros p. induction p as [| c r IH]; [discriminate |]. cbn.
    case_bool_decide as Hc.
    - intros _. exists r. now subst c.
    - cbn. intros Hr. destruct (IH Hr) as [ext Hext]. exists ext.
      change (String c r = String c (case_name r +:+ "." +:+ ext)). now f_equal. }
  intros s ext1 ext2 here Hs.
  unfold results_folder, info_path, probe_points_path.
  now rewrite !case_name_before_dot by assumption.
Qed.

Lemma case_name_up_to_first_dot_witness :
  case_name ("artery" +:+ "." +:+ "xml.gz") = "artery"
  ∧ results_folder ("artery" +:+ "." +:+ "xml") = results_folder ("artery" +:+ "." +:+ "vtu").
Proof.
  destruct case_name_up_to_first_dot as (_ & _ & Hdot & _ & Hsame).
  split.
  - apply Hdot. reflexivity.
  - apply (Hsame "artery" "xml" "vtu" ""). reflexivity.
Defined.

(** X23: where a run that is not restarted puts its results.  A mesh
    path that is empty or starts with a dot has the empty case name and
    the folder [results_aneurysm/]; an absolute mesh path takes the
    results folder, the flow split file and the probe file out of
    [results_aneurysm] and of the problem directory, next to the mesh;
    any other mesh path gives [results_aneurysm/] followed by the case
    name. *)
Theorem results_folder_cases :
  results_folder "" = "results_aneurysm/"
  ∧ (∀ r : string, results_folder (String "." r) = "results_aneurysm/")
  ∧ (∀ r here : string,
       results_folder (String "/" r) = case_name (String "/" r)
       ∧ info_path here (String "/" r) = case_name (String "/" r) +:+ ".txt"
       ∧ probe_points_path here (String "/" r)
         = case_name (String "/" r) +:+ "_probe_point")
  ∧ (∀ (c : ascii) (r : string), c ≠ "."%char → c ≠ "/"%char →
       results_folder (String c r) = "results_aneurysm/" +:+ case_name (String c r)).
Proof.
  split; [reflexivity |]. split; [reflexivity |]. split.
  - intros r here. unfold results_folder, info_path, probe_points_path.
    cbn [case_name]. rewrite bool_decide_eq_false_2 by discriminate.
    rewrite !path_join_absolute by reflexivity. auto.
  - intros c r Hdot Hsep. unfold results_folder. cbn [case_name].
    rewrite bool_decide_eq_false_2 by assumption.
    rewrite path_join_relative by (cbn; now apply bool_decide_eq_false_2).
    reflexivity.
Qed.

Lemma results_folder_cases_witness :
  results_folder "artery.xml" = "results_aneurysm/" +:+ case_name "artery.xml".
Proof.
  apply (proj2 (proj2 (proj2 results_folder_cases)) "a"%char "rtery.xml");
    discriminate.
Defined.

(** * The controller on doubles *)

Section Binary64Facts.
Import Binary64.
#[local] Set Warnings "-inexact-float".
Local Open Scope float_scope.

(** ** Comparisons and signs of doubles *)

Lemma Prim2SF_zero : Prim2SF 0 = S754_zero false.
Proof. reflexivity. Qed.

Lemma positive_nonzero (x : float) : (0 <? x) = true → (x =? 0) = false.
Proof.
  rewrite ltb_spec, eqb_spec, Prim2SF_zero.
  destruct (Prim2SF x) as [s | s | | s mx ex]; cbn; try discriminate;
    destruct s; cbn; intros; congruence.
Qed.


Lemma abs_not_negative (x : float) : (abs x <? 0) = false.
Proof.
  rewrite ltb_spec, abs_spec, Prim2SF_zero.
  now destruct (Prim2SF x) as [s | s | | s mx ex].
Qed.


(** ** Division, the quantities of one outlet and the pressure law *)

Lemma binary64_measure_split_ok (a p qi qo : float) :
  (qi =? 0) = false → (qo / qi =? 0) = false → (a =? 0) = false →
  measure_split a p qi qo =
    Ok (mk_flow_split a (qo / qi) (abs (a / (qo / qi))) (abs (a - qo / qi))
          (if p <? 0 then 1 + abs (a - qo / qi) / a
           else -1 * (1 + abs (a - qo / qi) / a))).
Proof.
  intros Hi Hr Ha. unfold measure_split, float_div.
  rewrite Hi. cbn. rewrite Hr. cbn. rewrite Ha.
  now destruct (p <? 0).
Qed.

Lemma binary64_measure_split_zero (a p qi qo : float) :
  (qi =? 0) = true ∨ (qo / qi =? 0) = true ∨ (a =? 0) = true →
  measure_split a p qi qo = Raise ZeroDivisionError.
Proof.
  intros Hz. unfold measure_split, float_div.
  destruct (qi =? 0) eqn:Hi; [reflexivity | cbn].
  destruct (qo / qi =? 0) eqn:Hr; [reflexivity | cbn].
  destruct Hz as [Hz | [Hz | Hz]]; try discriminate.
  rewrite Hz. now destruct (p <? 0).
Qed.


Lemma binary64_measure_split_raise (a p qi qo : float) (exc : string) :
  measure_split a p qi qo = Raise exc → exc = ZeroDivisionError.
Proof.
  unfold measure_split, float_div.
  destruct (qi =? 0); [now intros [= <-] | cbn].
  destruct (qo / qi =? 0); [now intros [= <-] | cbn].
  destruct (p <? 0), (a =? 0); cbn; try discriminate; now intros [= <-].
Qed.

Lemma binary64_pressure_law_ok (m : libm) (t : Z) (p : float) (fs : flow_split) :
  (R_optimal fs =? 0) = false →
  pressure_law m t p fs =
    if (t <? 100)%Z
    then Ok (linear_relaxation p ((R_optimal fs - R_actual fs) / R_optimal fs))
    else dual_pressure m p ((R_optimal fs - R_actual fs) / R_optimal fs)
           (R_err fs) (M_err fs) (E fs).
Proof.
  intros Ho. unfold pressure_law, float_div, linear_relaxation, dual_pressure.
  rewrite Ho. cbn.
  destruct (t <? 100)%Z; [now destruct (_ && _) | reflexivity].
Qed.

Lemma binary64_update_ok (m : libm) (a p qi qo : float) (t : Z) :
  (qi =? 0) = false → (qo / qi =? 0) = false → (a =? 0) = false →
  update m a p qi qo t =
    if (t <? 100)%Z
    then Ok (linear_relaxation p ((a - qo / qi) / a))
    else dual_pressure m p ((a - qo / qi) / a)
           (abs (a - qo / qi)) (abs (a / (qo / qi)))
           (if p <? 0 then 1 + abs (a - qo / qi) / a
            else -1 * (1 + abs (a - qo / qi) / a)).
Proof.
  intros Hi Hr Ha. unfold update.
  rewrite binary64_measure_split_ok by assumption. cbn.
  now rewrite binary64_pressure_law_ok.
Qed.

Lemma binary64_update_zero (m : libm) (a p qi qo : float) (t : Z) :
  (qi =? 0) = true ∨ (qo / qi =? 0) = true ∨ (a =? 0) = true →
  update m a p qi qo t = Raise ZeroDivisionError.
Proof. intros Hz. unfold update. now rewrite binary64_measure_split_zero. Qed.

(** ** What [**] asks of the C library, and what it can raise *)

Lemma positive_not_negative (x : float) : (0 <? x) = true → (x <? 0) = false.
Proof.
  rewrite !ltb_spec, Prim2SF_zero.
  destruct (Prim2SF x) as [s | s | | s mx ex]; cbn; try discriminate;
    destruct s; cbn; intros; congruence.
Qed.

Lemma positive_not_nan (x : float) : (0 <? x) = true → is_nan x = false.
Proof.
  unfold is_nan. rewrite ltb_spec, eqb_spec, Prim2SF_zero.
  destruct (Prim2SF x) as [s | s | | s mx ex]; cbn; try discriminate;
    destruct s; cbn; try discriminate; intros _;
    unfold SFeqb, SFcompare; cbn; rewrite ?Z.compare_refl, ?Pos.compare_refl;
    reflexivity.
Qed.

(** For a positive finite base, [**] consults [pow] alone. *)
Lemma binary64_float_pow_positive_base (m : libm) (fl : float → float)
    (fm : float → float → float) (x y : float) :
  (0 <? x) = true → is_infinity x = false →
  float_pow (mk_libm (pow m) fl fm) x y = float_pow m x y.
Proof.
  intros Hx Hinf. unfold float_pow.
  rewrite (positive_not_nan x Hx), Hinf, (positive_nonzero x Hx),
    (positive_not_negative x Hx).
  reflexivity.
Qed.

Lemma binary64_float_pow_raise (m : libm) (x y : float) (exc : string) :
  float_pow m x y = Raise exc →
  exc = ZeroDivisionError ∨ exc = OverflowError ∨ exc = ValueError.
Proof.
  unfold float_pow.
  repeat match goal with
         | |- context [if ?b then _ else _] => destruct b
         end; try discriminate; try (intros [= <-]; auto).
  all: destruct (pow m _ _) as [ix e]; destruct (adjust_erange _ _);
    try discriminate; intros [= <-]; auto.
Qed.

(** A base that is not negative gives a [ValueError] only if the C
    library reports an error that is no range error. *)
Lemma binary64_float_pow_value_error (m : libm) (x y : float) :
  (x <? 0) = false →
  float_pow m x y = Raise ValueError →
  (pow m x y).2 = EOTHER.
Proof.
  intros Hx. unfold float_pow. rewrite Hx. cbn [andb].
  repeat match goal with
         | |- context [if ?b then _ else _] => destruct b
         end; try discriminate.
  destruct (pow m x y) as [ix e]. cbn.
  destruct e; cbn; [| | reflexivity];
    repeat match goal with
           | |- context [if ?b then _ else _] => destruct b
           end; discriminate.
Qed.

Lemma binary64_beta_raise (m : libm) (err p : float) (exc : string) :
  beta m err p = Raise exc → float_pow m err 2 = Raise exc.
Proof.
  unfold beta.
  destruct (p <? 0), (0.1 <=? err); try discriminate;
    destruct (float_pow m err 2); cbn; try discriminate; now intros [= <-].
Qed.

Lemma binary64_dual_pressure_raise (m : libm) (p delta err merr e : float) (exc : string) :
  dual_pressure m p delta err merr e = Raise exc →
  float_pow m err 2 = Raise exc ∨ float_pow m merr e = Raise exc.
Proof.
  unfold dual_pressure. destruct (_ && _); [discriminate |].
  destruct (beta m err p) as [b |] eqn:Hb; cbn.
  - destruct (float_pow m merr e); cbn; [discriminate | intros [= <-]; auto].
  - intros [= <-]. left. now apply binary64_beta_raise in Hb.
Qed.
(** What the update can raise: the divisions of the loop body, and
    from timestep 100 on the two powers. *)
Lemma binary64_update_raise (m : libm) (a p qi qo : float) (t : Z) (exc : string) :
  update m a p qi qo t = Raise exc →
  exc = ZeroDivisionError ∨ exc = OverflowError
  ∨ (exc = ValueError ∧ ∃ x y : float, (pow m x y).2 = EOTHER).
Proof.
  intros Hu.
  destruct (qi =? 0) eqn:Hi.
  { rewrite binary64_update_zero in Hu by auto. injection Hu as <-. auto. }
  destruct (qo / qi =? 0) eqn:Hr.
  { rewrite binary64_update_zero in Hu by auto. injection Hu as <-. auto. }
  destruct (a =? 0) eqn:Ha.
  { rewrite binary64_update_zero in Hu by auto. injection Hu as <-. auto. }
  rewrite binary64_update_ok in Hu by assumption.
  destruct (t <? 100)%Z; [discriminate |].
  apply binary64_dual_pressure_raise in Hu as [Hu | Hu];
    (destruct (binary64_float_pow_raise _ _ _ _ Hu) as [-> | [-> | ->]];
     [auto | auto |]);
    right; right; (split; [reflexivity |]);
    eexists; eexists; (eapply binary64_float_pow_value_error; [| exact Hu]);
    apply abs_not_negative.
Qed.

(** ** Claims on [update], on doubles *)

(** C3 (amended): the regime is chosen by the timestep alone, on the
    inputs for which the loop body's three divisions are defined.
    There, below timestep 100 the update returns the linear relaxation
    law (or its clamp) and from 100 on what the dual-pressure law (or
    its clamp) gives, which can be an exception of [**].  On every
    other input, a zero inflow, flow ratio or area ratio, the update
    raises [ZeroDivisionError] in both regimes and applies neither law.
    The phase is early at 99, steady at 100, and once steady it stays
    steady. *)
Theorem binary64_regime_by_timestep :
  (∀ (m : libm) (a p qi qo : float) (t : Z),
      (qi =? 0) = false → (qo / qi =? 0) = false → (a =? 0) = false →
      (t < 100)%Z →
      update m a p qi qo t = Ok (linear_relaxation p ((a - qo / qi) / a)))
  ∧ (∀ (m : libm) (a p qi qo : float) (t : Z),
      (qi =? 0) = false → (qo / qi =? 0) = false → (a =? 0) = false →
      (100 ≤ t)%Z →
      update m a p qi qo t =
        dual_pressure m p ((a - qo / qi) / a)
          (abs (a - qo / qi)) (abs (a / (qo / qi)))
          (if p <? 0 then 1 + abs (a - qo / qi) / a
           else -1 * (1 + abs (a - qo / qi) / a)))
  ∧ (∀ (m : libm) (a p qi qo : float) (t : Z),
      (qi =? 0) = true ∨ (qo / qi =? 0) = true ∨ (a =? 0) = true →
      update m a p qi qo t = Raise ZeroDivisionError)
  ∧ (∀ (m : libm) (a p qi qo : float) (t : Z) (exc : string),
      (t < 100)%Z → update m a p qi qo t = Raise exc →
      exc = ZeroDivisionError
      ∧ ((qi =? 0) = true ∨ (qo / qi =? 0) = true ∨ (a =? 0) = true))
  ∧ cycle_phase 99 = EARLY_TRANSIENT
  ∧ cycle_phase 100 = STEADY_STATE
  ∧ (∀ t : Z, cycle_phase t = STEADY_STATE ↔ (100 ≤ t)%Z)
  ∧ (∀ t t' : Z, (t ≤ t')%Z → cycle_phase t = STEADY_STATE → cycle_phase t' = STEADY_STATE).
Proof.
  split; [| split; [| split; [| split; [| split; [| split; [| split]]]]]].
  - intros m a p qi qo t Hi Hr Ha Ht.
    rewrite binary64_update_ok by assumption.
    now rewrite (proj2 (Z.ltb_lt t 100) Ht).
  - intros m a p qi qo t Hi Hr Ha Ht.
    rewrite binary64_update_ok by assumption.
    now rewrite (proj2 (Z.ltb_ge t 100) Ht).
  - intros m a p qi qo t Hz. now apply binary64_update_zero.
  - intros m a p qi qo t exc Ht Hu.
    destruct (qi =? 0) eqn:Hi.
    { rewrite binary64_update_zero in Hu by auto. injection Hu as <-. auto. }
    destruct (qo / qi =? 0) eqn:Hr.
    { rewrite binary64_update_zero in Hu by auto. injection Hu as <-. auto. }
    destruct (a =? 0) eqn:Ha.
    { rewrite binary64_update_zero in Hu by auto. injection Hu as <-. auto. }
    rewrite binary64_update_ok in Hu by assumption.
    rewrite (proj2 (Z.ltb_lt t 100) Ht) in Hu. discriminate.
  - reflexivity.
  - reflexivity.
  - apply cycle_phase_steady_iff.
  - intros t t' Hle Hs. apply cycle_phase_steady_iff.
    apply cycle_phase_steady_iff in Hs. lia.
Qed.

Lemma binary64_regime_by_timestep_witness :
  update libm_samples 0.5 1 1 0.4 99 = Ok (linear_relaxation 1 ((0.5 - 0.4 / 1) / 0.5))
  ∧ update libm_samples 0.3 1 10 2 100 =
      dual_pressure libm_samples 1 ((0.3 - 2 / 10) / 0.3)
        (abs (0.3 - 2 / 10)) (abs (0.3 / (2 / 10)))
        (if 1 <? 0 then 1 + abs (0.3 - 2 / 10) / 0.3
         else -1 * (1 + abs (0.3 - 2 / 10) / 0.3))
  ∧ update libm_samples 0.5 1 1 0 99 = Raise ZeroDivisionError
  ∧ cycle_phase 250 = STEADY_STATE.
Proof.
  destruct binary64_regime_by_timestep as (Hearly & Hsteady & Hzero & _ & _ & H100 & _ & Hmono).
  split; [apply Hearly; [reflexivity | reflexivity | reflexivity | lia] |].
  split; [apply Hsteady; [reflexivity | reflexivity | reflexivity | lia] |].
  split; [apply Hzero; right; left; reflexivity |].
  apply (Hmono 100%Z 250%Z); [lia | exact H100].
Defined.

(** C3 as stated fails at a zero outflow: at timestep 99 the linear law
    gives 0.9 times the old pressure, and the update raises instead;
    it raises at timestep 100 as well. *)
Lemma binary64_zero_outflow_applies_no_law :
  linear_relaxation 1 ((0.5 - 0 / 1) / 0.5) = 0.9
  ∧ update libm_samples 0.5 1 1 0 99 = Raise ZeroDivisionError
  ∧ update libm_samples 0.5 1 1 0 99 ≠ Ok (linear_relaxation 1 ((0.5 - 0 / 1) / 0.5))
  ∧ update libm_samples 0.5 1 1 0 100 = Raise ZeroDivisionError.
Proof.
  split; [reflexivity |]. split; [reflexivity |].
  split; [discriminate | reflexivity].
Qed.

(** C2 (amended): on the worked example the update computes, on
    doubles, [R_actual = 0.2], [R_err = 0.09999999999999998], which is
    below 0.1, [M_err = 1.4999999999999998] and
    [E = -1.3333333333333333]; [beta] therefore takes its quadratic
    branch, and the update returns [1.0 * (1 + 5*R_err**2) * M_err**E].
    With the values the C library gives for the two powers that is
    [beta = 1.05] and the pressure 0.6115063253154094, which is not
    within 1e-6 of 0.568. *)
Theorem binary64_worked_example (m : libm) :
  ∃ fs : flow_split,
    measure_split 0.3 1 10 2 = Ok fs
    ∧ R_actual fs = 0.2
    ∧ R_err fs = 0.09999999999999998
    ∧ (R_err fs <? 0.1) = true
    ∧ M_err fs = 1.4999999999999998
    ∧ E fs = -1.3333333333333333
    ∧ beta m (R_err fs) 1 = (sq ← float_pow m (R_err fs) 2; Ok (1 + 5 * sq))
    ∧ update m 0.3 1 10 2 200 =
        (sq ← float_pow m (R_err fs) 2;
         pw ← float_pow m (M_err fs) (E fs);
         Ok (1 * (1 + 5 * sq) * pw))
    ∧ (pow m (R_err fs) 2 = (0.009999999999999995, ENONE) →
       pow m (M_err fs) (E fs) = (0.582386976490866, ENONE) →
       beta m (R_err fs) 1 = Ok 1.05
       ∧ update m 0.3 1 10 2 200 = Ok 0.6115063253154094)
    ∧ (abs (0.6115063253154094 - 0.568) <=? 0.000001) = false.
Proof.
  exists (mk_flow_split 0.3 0.2 1.4999999999999998 0.09999999999999998
            (-1.3333333333333333)).
  split; [reflexivity |]. cbn [R_actual R_err M_err E].
  assert (Hb : beta m 0.09999999999999998 1
               = (sq ← float_pow m 0.09999999999999998 2; Ok (1 + 5 * sq)))
    by reflexivity.
  assert (Hu : update m 0.3 1 10 2 200
               = (sq ← float_pow m 0.09999999999999998 2;
                  pw ← float_pow m 1.4999999999999998 (-1.3333333333333333);
                  Ok (1 * (1 + 5 * sq) * pw))).
  { rewrite binary64_update_ok by reflexivity.
    unfold dual_pressure. cbn.
    destruct (pow m _ 2) as [ix e]. now destruct (adjust_erange ix e). }
  split; [reflexivity |]. split; [reflexivity |]. split; [reflexivity |].
  split; [reflexivity |]. split; [reflexivity |].
  split; [exact Hb |]. split; [exact Hu |].
  split; [| reflexivity].
  intros Hsq Hpw.
  assert (Hsq' : float_pow m 0.09999999999999998 2 = Ok 0.009999999999999995).
  { unfold float_pow. cbn. now rewrite Hsq. }
  assert (Hpw' : float_pow m 1.4999999999999998 (-1.3333333333333333)
                 = Ok 0.582386976490866).
  { unfold float_pow. cbn. now rewrite Hpw. }
  rewrite Hu, Hb, Hsq', Hpw'. split; reflexivity.
Qed.

Lemma binary64_worked_example_witness :
  update libm_samples 0.3 1 10 2 200 = Ok 0.6115063253154094.
Proof.
  destruct (binary64_worked_example libm_samples)
    as (fs & _ & _ & Herr & _ & Hm & He & _ & _ & Hv & _).
  apply Hv.
  - rewrite Herr. reflexivity.
  - rewrite Hm, He. reflexivity.
Defined.

(** C2 as stated fails: on doubles the error [abs(0.3 - 2/10)] is not
    0.1 and does not reach the threshold of [beta], [M_err] is not 1.5,
    and with the C library's powers [beta] is 1.05, not 1.5, and the
    pressure returned is not within 1e-6 of 0.568. *)
Lemma binary64_worked_example_not_0568 :
  ∃ fs : flow_split,
    measure_split 0.3 1 10 2 = Ok fs
    ∧ (R_err fs =? 0.1) = false
    ∧ (0.1 <=? R_err fs) = false
    ∧ (M_err fs =? 1.5) = false
    ∧ beta libm_samples (R_err fs) 1 = Ok 1.05
    ∧ ∃ v : float,
        update libm_samples 0.3 1 10 2 200 = Ok v
        ∧ (abs (v - 0.568) <=? 0.000001) = false.
Proof.
  eexists. split; [reflexivity |]. cbn [R_err M_err].
  split; [reflexivity |]. split; [reflexivity |]. split; [reflexivity |].
  split; [reflexivity |].
  eexists. split; reflexivity.
Qed.





(** ** The hook on doubles *)

Lemma binary64_loop_body_inv (sv : solver) (area_ratio : list float)
    (NS_expressions : expressions) (Q_in : float) (n : nat) (o : Z) (l : locals) :
  loop_body sv NS_expressions area_ratio Q_in n o = Ok l →
  ∃ a : float,
    area_ratio !! n = Some a
    ∧ outlet_p NS_expressions !! o = Some (p_old l)
    ∧ measure_split a (p_old l) Q_in (abs (assemble_flux sv o)) = Ok (quantities l)
    ∧ out_id l = o ∧ i l = n ∧ Q_out l = abs (assemble_flux sv o).
Proof.
  unfold loop_body, getitem, get_p.
  destruct (area_ratio !! n) as [a |]; [cbn | discriminate].
  destruct (outlet_p NS_expressions !! o) as [p |]; [cbn | discriminate].
  destruct (measure_split a p Q_in (abs (assemble_flux sv o))) as [fs |] eqn:Hfs;
    [cbn | discriminate].
  intros [= <-]. exists a. cbn. repeat split; auto.
Qed.

Lemma binary64_loop_body_raise (sv : solver) (area_ratio : list float)
    (NS_expressions : expressions) (Q_in : float) (n : nat) (o : Z) (exc : string) :
  loop_body sv NS_expressions area_ratio Q_in n o = Raise exc →
  exc = IndexError ∨ exc = KeyError ∨ exc = ZeroDivisionError.
Proof.
  unfold loop_body, getitem, get_p.
  destruct (area_ratio !! n) as [a |]; cbn; [| intros [= <-]; auto].
  destruct (outlet_p NS_expressions !! o) as [p |]; cbn; [| intros [= <-]; auto].
  destruct (measure_split a p Q_in (abs (assemble_flux sv o))) as [fs |] eqn:Hfs;
    cbn; [discriminate |].
  intros [= <-]. apply binary64_measure_split_raise in Hfs. auto.
Qed.

Lemma binary64_loop_body_ok (sv : solver) (area_ratio : list float)
    (NS_expressions : expressions) (Q_in : float) (n : nat) (o : Z) (a p : float) :
  area_ratio !! n = Some a →
  outlet_p NS_expressions !! o = Some p →
  (Q_in =? 0) = false → (abs (assemble_flux sv o) / Q_in =? 0) = false →
  (a =? 0) = false →
  ∃ fs : flow_split,
    measure_split a p Q_in (abs (assemble_flux sv o)) = Ok fs
    ∧ loop_body sv NS_expressions area_ratio Q_in n o =
        Ok (mk_locals n o (abs (assemble_flux sv o)) (a * Q_in) p fs).
Proof.
  intros Ha Hp Hi Hr Ha0. unfold loop_body, getitem, get_p.
  rewrite Ha, Hp. cbn.
  rewrite binary64_measure_split_ok by assumption. eauto.
Qed.

(** The names left behind by the loop are those of its last pass. *)
Lemma binary64_outlet_loop_last (sv : solver) (area_ratio : list float)
    (NS_expressions : expressions) (Q_in : float) (ids : list Z) :
  ∀ (n : nat) (Q_outs Q_outs' : list float) (l0 l' : option locals),
    outlet_loop sv NS_expressions area_ratio Q_in n ids Q_outs l0 = Ok (Q_outs', l') →
    match last ids with
    | None => l' = l0
    | Some o =>
        ∃ l : locals,
          l' = Some l
          ∧ loop_body sv NS_expressions area_ratio Q_in (n + length ids - 1) o = Ok l
    end.
Proof.
  induction ids as [| o rest IH]; intros n Q_outs Q_outs' l0 l'; cbn.
  - now intros [= _ <-].
  - destruct (loop_body sv NS_expressions area_ratio Q_in n o) as [l |] eqn:Hl;
      [cbn | discriminate].
    intros Hloop. specialize (IH _ _ _ _ _ Hloop).
    destruct rest as [| o' rest'].
    + cbn in *. subst l'. exists l. split; [reflexivity |].
      now replace (n + 1 - 1)%nat with n by lia.
    + rewrite last_cons_cons.
      destruct (last (o' :: rest')) as [k |] eqn:Hlast;
        [| apply last_None in Hlast; discriminate].
      destruct IH as [lk [-> Hk]]. exists lk. split; [reflexivity |].
      cbn [length] in *.
      now replace (n + S (S (length rest')) - 1)%nat
        with (S n + S (length rest') - 1)%nat by lia.
Qed.

Lemma binary64_outlet_loop_raise (sv : solver) (area_ratio : list float)
    (NS_expressions : expressions) (Q_in : float) (ids : list Z) (exc : string) :
  ∀ (n : nat) (Q_outs : list float) (l0 : option locals),
    outlet_loop sv NS_expressions area_ratio Q_in n ids Q_outs l0 = Raise exc →
    ∃ (k : nat) (o : Z),
      ids !! k = Some o
      ∧ loop_body sv NS_expressions area_ratio Q_in (n + k) o = Raise exc.
Proof.
  induction ids as [| o rest IH]; intros n Q_outs l0; cbn; [discriminate |].
  destruct (loop_body sv NS_expressions area_ratio Q_in n o) as [l |] eqn:Hl; cbn.
  - intros Hloop. apply IH in Hloop as (k & o' & Hk & Hbody).
    exists (S k), o'. split; [exact Hk |].
    now replace (n + S k)%nat with (S n + k)%nat by lia.
  - intros [= <-]. exists 0%nat, o. split; [reflexivity |].
    now rewrite Nat.add_0_r.
Qed.

Lemma binary64_outlet_loop_ok (sv : solver) (area_ratio : list float)
    (NS_expressions : expressions) (Q_in : float) (ids : list Z) :
  ∀ (n : nat) (Q_outs : list float) (l0 : option locals),
    (∀ (k : nat) (o : Z), ids !! k = Some o →
       measurable sv area_ratio NS_expressions Q_in (n + k) o) →
    ∃ (Q_outs' : list float) (l' : option locals),
      outlet_loop sv NS_expressions area_ratio Q_in n ids Q_outs l0 = Ok (Q_outs', l').
Proof.
  induction ids as [| o rest IH]; intros n Q_outs l0 Hh; cbn.
  - eauto.
  - destruct (Hh 0%nat o eq_refl) as (a & p & Ha & Hp & Hi & Hr & Ha0).
    rewrite Nat.add_0_r in Ha.
    destruct (binary64_loop_body_ok sv area_ratio NS_expressions Q_in n o a p
                Ha Hp Hi Hr Ha0) as (fs & _ & ->). cbn.
    apply IH. intros k o' Hk.
    replace (S n + k)%nat with (n + S k)%nat by lia.
    now apply Hh.
Qed.

(** What the sampled branch assigns: the pressure of the last outlet
    of [id_out], updated from the area ratio, the old pressure and
    the flux of that outlet. *)
Lemma binary64_flux_and_pressure_inv (m : libm) (sv : solver) (tstep : Z)
    (id_in id_out : list Z) (area_ratio : list float) (NS_expressions : expressions)
    (o : Z) (v : float) :
  flux_and_pressure m sv tstep id_in id_out area_ratio NS_expressions = Ok (o, v) →
  ∃ (in0 : Z) (a p : float),
    id_in !! 0%nat = Some in0
    ∧ last id_out = Some o
    ∧ area_ratio !! (length id_out - 1)%nat = Some a
    ∧ outlet_p NS_expressions !! o = Some p
    ∧ update m a p (abs (assemble_flux sv in0)) (abs (assemble_flux sv o)) tstep = Ok v.
Proof.
  unfold flux_and_pressure, getitem.
  destruct (id_in !! 0%nat) as [in0 |]; [cbn | discriminate].
  destruct (outlet_loop _ _ _ _ _ _ _ _) as [[Q_outs l'] |] eqn:Hloop;
    [cbn | discriminate].
  apply binary64_outlet_loop_last in Hloop.
  destruct l' as [l |]; [| discriminate].
  destruct (pressure_law m tstep (p_old l) (quantities l)) as [v' |] eqn:Hv;
    [cbn | discriminate].
  intros [= <- <-].
  destruct (last id_out) as [k |] eqn:Hlast; [| discriminate].
  destruct Hloop as [lk [[= <-] Hbody]].
  apply binary64_loop_body_inv in Hbody as (a & Ha & Hp & Hfs & Ho & _).
  exists in0, a, (p_old l). rewrite Ho.
  repeat split; try assumption.
  unfold update. rewrite Hfs. exact Hv.
Qed.

(** On measurable outlets the sampled branch is the update of the last
    outlet, exception included. *)
Lemma binary64_flux_and_pressure_ok (m : libm) (sv : solver) (tstep : Z)
    (id_in id_out : list Z) (area_ratio : list float) (NS_expressions : expressions)
    (in0 o : Z) (a p : float) :
  id_in !! 0%nat = Some in0 →
  (∀ (k : nat) (o' : Z), id_out !! k = Some o' →
     measurable sv area_ratio NS_expressions (abs (assemble_flux sv in0)) k o') →
  last id_out = Some o →
  area_ratio !! (length id_out - 1)%nat = Some a →
  outlet_p NS_expressions !! o = Some p →
  flux_and_pressure m sv tstep id_in id_out area_ratio NS_expressions =
    (v ← update m a p (abs (assemble_flux sv in0)) (abs (assemble_flux sv o)) tstep;
     Ok (o, v)).
Proof.
  intros Hid Hh Hlast Ha Hp.
  destruct (binary64_outlet_loop_ok sv area_ratio NS_expressions
              (abs (assemble_flux sv in0)) id_out 0 [] None Hh)
    as (Q_outs & l' & Hloop).
  unfold flux_and_pressure, getitem. rewrite Hid. cbn. rewrite Hloop. cbn.
  apply binary64_outlet_loop_last in Hloop. rewrite Hlast in Hloop.
  destruct Hloop as (l & -> & Hbody). cbn [Nat.add] in Hbody.
  destruct (proj1 (last_Some _ _) Hlast) as [front Hfront].
  destruct (Hh (length front) o) as (a' & p' & Ha' & Hp' & Hi & Hr & Ha0).
  { rewrite Hfront. apply list_lookup_middle. reflexivity. }
  assert (Hlen : (length id_out - 1)%nat = length front).
  { rewrite Hfront, length_app. cbn. lia. }
  rewrite Hlen in Ha, Hbody.
  assert (a' = a) by congruence. assert (p' = p) by congruence. subst a' p'.
  destruct (binary64_loop_body_ok sv area_ratio NS_expressions _ _ o a p
              Ha Hp Hi Hr Ha0) as (fs & Hfs & Hbody').
  rewrite Hbody' in Hbody. injection Hbody as <-. cbn.
  unfold update. rewrite Hfs. reflexivity.
Qed.

Lemma binary64_temporal_hook_sampled (m : libm) (sv : solver) (tstep : Z) (t : float)
    (id_in id_out : list Z) (area_ratio : list float) (NS_expressions : expressions)
    (in0 o : Z) (a p : float) :
  (tstep > 2)%Z →
  id_in !! 0%nat = Some in0 →
  (∀ (k : nat) (o' : Z), id_out !! k = Some o' →
     measurable sv area_ratio NS_expressions (abs (assemble_flux sv in0)) k o') →
  last id_out = Some o →
  area_ratio !! (length id_out - 1)%nat = Some a →
  outlet_p NS_expressions !! o = Some p →
  temporal_hook m sv tstep t id_in id_out area_ratio NS_expressions =
    match update m a p (abs (assemble_flux sv in0)) (abs (assemble_flux sv o)) tstep with
    | Ok v => (set_p (set_t NS_expressions t) o v, Ok ())
    | Raise exc => (set_t NS_expressions t, Raise exc)
    end.
Proof.
  intros Ht Hid Hh Hlast Ha Hp. unfold temporal_hook.
  rewrite (proj2 (sampled_iff tstep) Ht).
  rewrite (binary64_flux_and_pressure_ok m sv tstep id_in id_out area_ratio
             (set_t NS_expressions t) in0 o a p Hid Hh Hlast Ha Hp).
  now destruct (update m a p _ _ tstep).
Qed.

Lemma binary64_example_measurable (t : float) :
  ∀ (k : nat) (o : Z), [1%Z; 2%Z] !! k = Some o →
    measurable example_solver [0.5; 0.5] example_expressions
      (abs (assemble_flux example_solver 0)) k o.
Proof.
  intros k o Hk.
  destruct k as [| [| k]]; cbn in Hk; [| | discriminate]; injection Hk as <-;
    exists 0.5, 1; repeat split; reflexivity.
Qed.

(** C9: the guard of the flux and pressure block holds exactly when
    [tstep > 2], its modulo test being true at every timestep.  Up to
    timestep 2 the hook leaves every outlet pressure as it was.  After
    it, on outlets that can be measured, the hook measures the fluxes
    through the inlet and the last outlet and stores for that outlet
    the update of its area ratio, its old pressure and the two fluxes;
    if the update raises, so does the hook. *)
Theorem binary64_hook_samples_after_step_two :
  (∀ tstep : Z, (tstep `mod` 1 = 0)%Z)
  ∧ (∀ tstep : Z, sampled tstep = true ↔ (tstep > 2)%Z)
  ∧ (∀ (m : libm) (sv : solver) (tstep : Z) (t : float) (id_in id_out : list Z)
       (area_ratio : list float) (NS_expressions : expressions),
      (tstep ≤ 2)%Z →
      outlet_p (temporal_hook m sv tstep t id_in id_out area_ratio NS_expressions).1
      = outlet_p NS_expressions)
  ∧ (∀ (m : libm) (sv : solver) (tstep : Z) (t : float) (id_in id_out : list Z)
       (area_ratio : list float) (NS_expressions : expressions)
       (in0 o : Z) (a p : float),
      (tstep > 2)%Z →
      id_in !! 0%nat = Some in0 →
      (∀ (k : nat) (o' : Z), id_out !! k = Some o' →
         measurable sv area_ratio NS_expressions (abs (assemble_flux sv in0)) k o') →
      last id_out = Some o →
      area_ratio !! (length id_out - 1)%nat = Some a →
      outlet_p NS_expressions !! o = Some p →
      let after := temporal_hook m sv tstep t id_in id_out area_ratio NS_expressions in
      match update m a p (abs (assemble_flux sv in0)) (abs (assemble_flux sv o)) tstep with
      | Ok v => after.2 = Ok () ∧ outlet_p after.1 = <[o := v]> (outlet_p NS_expressions)
      | Raise exc => after.2 = Raise exc ∧ outlet_p after.1 = outlet_p NS_expressions
      end)
  ∧ (∀ (m : libm) (sv : solver) (tstep : Z) (t : float) (id_in id_out : list Z)
       (area_ratio : list float) (NS_expressions : expressions),
      (tstep > 2)%Z →
      let after := temporal_hook m sv tstep t id_in id_out area_ratio NS_expressions in
      after.2 = Ok () →
      ∃ (in0 o : Z) (a p v : float),
        id_in !! 0%nat = Some in0
        ∧ last id_out = Some o
        ∧ area_ratio !! (length id_out - 1)%nat = Some a
        ∧ outlet_p NS_expressions !! o = Some p
        ∧ update m a p (abs (assemble_flux sv in0)) (abs (assemble_flux sv o)) tstep = Ok v
        ∧ outlet_p after.1 = <[o := v]> (outlet_p NS_expressions)).
Proof.
  split; [apply Z.mod_1_r |].
  split; [apply sampled_iff |].
  split; [| split].
  - intros m sv tstep t id_in id_out area_ratio NS Ht. unfold temporal_hook.
    destruct (sampled tstep) eqn:Hs; [apply sampled_iff in Hs; lia |].
    now destruct (_ && _).
  - intros m sv tstep t id_in id_out area_ratio NS in0 o a p Ht Hid Hh Hlast Ha Hp after.
    unfold after.
    rewrite (binary64_temporal_hook_sampled m sv tstep t id_in id_out area_ratio NS
               in0 o a p Ht Hid Hh Hlast Ha Hp).
    now destruct (update m a p _ _ tstep).
  - intros m sv tstep t id_in id_out area_ratio NS Ht after. unfold after, temporal_hook.
    rewrite (proj2 (sampled_iff tstep) Ht).
    destruct (flux_and_pressure _ _ _ _ _ _ _) as [[o v] |] eqn:Hfp; [| discriminate].
    intros _.
    apply binary64_flux_and_pressure_inv in Hfp as (in0 & a & p & Hid & Hlast & Ha & Hp & Hu).
    exists in0, o, a, p, v. auto 7.
Qed.

Lemma binary64_hook_samples_after_step_two_witness :
  outlet_p (temporal_hook libm_samples example_solver 2 0 [0%Z] [1%Z; 2%Z] [0.5; 0.5]
              example_expressions).1 !! 2%Z = Some 1
  ∧ update libm_samples 0.5 1 1 0.6 3 = Ok 1.02
  ∧ (temporal_hook libm_samples example_solver 3 0 [0%Z] [1%Z; 2%Z] [0.5; 0.5]
       example_expressions).2 = Ok ()
  ∧ outlet_p (temporal_hook libm_samples example_solver 3 0 [0%Z] [1%Z; 2%Z] [0.5; 0.5]
                example_expressions).1 !! 2%Z = Some 1.02.
Proof.
  destruct binary64_hook_samples_after_step_two as (_ & _ & Hearly & Hlate & _).
  split; [rewrite Hearly by lia; reflexivity |].
  split; [reflexivity |].
  specialize (Hlate libm_samples example_solver 3%Z 0 [0%Z] [1%Z; 2%Z] [0.5; 0.5]
                example_expressions 0%Z 2%Z 0.5 1).
  destruct Hlate as [Hout Hp];
    [lia | reflexivity | apply (binary64_example_measurable 0) | reflexivity
    | reflexivity | reflexivity |].
  split; [exact Hout |].
  rewrite Hp. apply lookup_insert_eq.
Defined.
(** ** Further properties of the hook on doubles *)

(** X8: a hook that raises has changed no pressure, and the exception
    is one of [IndexError], [KeyError], [ZeroDivisionError],
    [UnboundLocalError] and [OverflowError], or a [ValueError] that
    only an error report of the C library other than a range error can
    cause. *)
Theorem binary64_hook_exceptions (m : libm) (sv : solver) (tstep : Z) (t : float)
    (id_in id_out : list Z) (area_ratio : list float) (NS_expressions : expressions)
    (exc : string) :
  (temporal_hook m sv tstep t id_in id_out area_ratio NS_expressions).2 = Raise exc →
  outlet_p (temporal_hook m sv tstep t id_in id_out area_ratio NS_expressions).1
  = outlet_p NS_expressions
  ∧ (exc = IndexError ∨ exc = KeyError ∨ exc = ZeroDivisionError
     ∨ exc = UnboundLocalError ∨ exc = OverflowError
     ∨ (exc = ValueError ∧ ∃ x y : float, (pow m x y).2 = EOTHER)).
Proof.
  unfold temporal_hook.
  destruct (sampled tstep);
    [| destruct (_ && _); [intros Heq; injection Heq as <-; auto 6 | discriminate]].
  destruct (flux_and_pressure _ _ _ _ _ _ _) as [[o v] | e] eqn:Hfp; [discriminate |].
  intros [= <-]. split; [reflexivity |].
  revert Hfp. unfold flux_and_pressure, getitem.
  destruct (id_in !! 0%nat) as [in0 |]; cbn; [| intros [= <-]; auto].
  destruct (outlet_loop _ _ _ _ _ _ _ _) as [[Q_outs l'] | e'] eqn:Hloop; cbn.
  - destruct l' as [l |]; [| intros [= <-]; auto 6].
    apply binary64_outlet_loop_last in Hloop.
    destruct (last id_out) as [k |]; [| discriminate].
    destruct Hloop as (lk & [= <-] & Hbody).
    apply binary64_loop_body_inv in Hbody as (a & _ & _ & Hfs & _).
    destruct (pressure_law m tstep (p_old l) (quantities l)) as [v |] eqn:Hv;
      [discriminate |].
    intros [= <-].
    assert (Hu : update m a (p_old l) (abs (assemble_flux sv in0))
                   (abs (assemble_flux sv k)) tstep = Raise exc).
    { unfold update. rewrite Hfs. exact Hv. }
    apply binary64_update_raise in Hu as [-> | [-> | Hu]]; auto 7.
  - intros [= <-]. apply binary64_outlet_loop_raise in Hloop as (k & o & _ & Hbody).
    apply binary64_loop_body_raise in Hbody as [-> | [-> | ->]]; auto.
Qed.

Lemma binary64_hook_exceptions_witness :
  (temporal_hook libm_samples (mk_solver (λ id, if (id =? 0)%Z then 1 else 0.75) 0)
     200 0 [0%Z] [1%Z] [0.005] (mk_expressions [] {[1%Z := 1]})).2
  = Raise OverflowError
  ∧ outlet_p (temporal_hook libm_samples
                (mk_solver (λ id, if (id =? 0)%Z then 1 else 0.75) 0)
                200 0 [0%Z] [1%Z] [0.005] (mk_expressions [] {[1%Z := 1]})).1
    = {[1%Z := 1]}.
Proof.
  split; [reflexivity |].
  destruct (binary64_hook_exceptions libm_samples
              (mk_solver (λ id, if (id =? 0)%Z then 1 else 0.75) 0)
              200 0 [0%Z] [1%Z] [0.005] (mk_expressions [] {[1%Z := 1]}) OverflowError)
    as [Hframe _]; [reflexivity | exact Hframe].
Defined.

(** X9: after timestep 2, on outlets that can be measured, the hook
    up to timestep 99 returns normally and assigns to the last outlet
    the linear law of that outlet's area ratio, pressure and flux; from
    timestep 100 on it assigns what the dual-pressure law returns and
    raises what that law raises. *)
Theorem binary64_hook_updates_last_outlet (m : libm) (sv : solver) (tstep : Z) (t : float)
    (id_in id_out : list Z) (area_ratio : list float) (NS_expressions : expressions)
    (in0 o : Z) (a p : float) :
  (tstep > 2)%Z →
  id_in !! 0%nat = Some in0 →
  (∀ (k : nat) (o' : Z), id_out !! k = Some o' →
     measurable sv area_ratio NS_expressions (abs (assemble_flux sv in0)) k o') →
  last id_out = Some o →
  area_ratio !! (length id_out - 1)%nat = Some a →
  outlet_p NS_expressions !! o = Some p →
  let R_actual := abs (assemble_flux sv o) / abs (assemble_flux sv in0) in
  ((tstep < 100)%Z →
   temporal_hook m sv tstep t id_in id_out area_ratio NS_expressions
   = (set_p (set_t NS_expressions t) o (linear_relaxation p ((a - R_actual) / a)), Ok ()))
  ∧ ((100 ≤ tstep)%Z →
     temporal_hook m sv tstep t id_in id_out area_ratio NS_expressions
     = match dual_pressure m p ((a - R_actual) / a) (abs (a - R_actual))
               (abs (a / R_actual))
               (if p <? 0 then 1 + abs (a - R_actual) / a
                else -1 * (1 + abs (a - R_actual) / a)) with
       | Ok v => (set_p (set_t NS_expressions t) o v, Ok ())
       | Raise exc => (set_t NS_expressions t, Raise exc)
       end).
Proof.
  intros Ht Hid Hh Hlast Ha Hp R_actual.
  destruct (proj1 (last_Some _ _) Hlast) as [front Hfront].
  destruct (Hh (length front) o) as (a' & p' & Ha' & Hp' & Hi & Hr & Ha0).
  { rewrite Hfront. now apply list_lookup_middle. }
  assert (a' = a).
  { replace (length id_out - 1)%nat with (length front) in Ha
      by (rewrite Hfront, length_app; cbn; lia).
    congruence. }
  subst a'.
  rewrite (binary64_temporal_hook_sampled m sv tstep t id_in id_out area_ratio
             NS_expressions in0 o a p Ht Hid Hh Hlast Ha Hp).
  rewrite binary64_update_ok by assumption. fold R_actual.
  split; intros Ht'.
  - now rewrite (proj2 (Z.ltb_lt tstep 100) Ht').
  - now rewrite (proj2 (Z.ltb_ge tstep 100) Ht').
Qed.

Lemma binary64_hook_updates_last_outlet_witness :
  temporal_hook libm_samples example_solver 50 0 [0%Z] [1%Z; 2%Z] [0.5; 0.5]
    example_expressions
  = (set_p (set_t example_expressions 0) 2 1.02, Ok ()).
Proof.
  destruct (binary64_hook_updates_last_outlet libm_samples example_solver 50 0
              [0%Z] [1%Z; 2%Z] [0.5; 0.5] example_expressions 0%Z 2%Z 0.5 1)
    as [Hearly _];
    [lia | reflexivity | apply (binary64_example_measurable 0) | reflexivity
    | reflexivity | reflexivity |].
  rewrite Hearly by lia. reflexivity.
Defined.
End Binary64Facts.
